(** * Logger registry (package [logging], file [registry.go])

    A shallow embedding of the registry of named loggers: construction from a
    configuration view ([NewRegistry]), case-insensitive lookup ([Get],
    [GetOK], [Root]), explicit registration ([Register]) and reconfiguration
    ([Reload], [findLongestMatchingPath]).

    Go pointers are addresses into typed heaps kept in a [World]; a nil
    pointer is [None].  Code that can panic (a method called through a nil
    pointer or a nil interface) runs in a state-and-panic monad [M].  The
    registry's mutex is not modelled: every operation here runs alone, so
    [Lock] finds the mutex free and [Unlock] releases it again. *)

From stdpp Require Import gmap strings list fin_maps sorting.
From Stdlib Require Import Ascii.

Open Scope string_scope.

(** ** Strings *)

(** [strings.ToLower] on its ASCII path: a byte in ['A'..'Z'] is moved by
    ['a' - 'A'], every other byte is kept.  For a string with a byte above
    0x7f Go lowercases rune by rune, which this definition does not follow:
    a statement that depends on how such a name is lowercased is made for
    [isASCII] names only. *)
Definition lower_byte (c : ascii) : ascii :=
  let n := nat_of_ascii c in
  if (65 <=? n)%nat && (n <=? 90)%nat then ascii_of_nat (n + 32) else c.

Fixpoint ToLower (s : string) : string :=
  match s with
  | EmptyString => EmptyString
  | String c s' => String (lower_byte c) (ToLower s')
  end.

(** The test [strings.ToLower] makes first: no byte of the string is 0x80
    or above.  On such a string the definition above is [strings.ToLower]
    itself. *)
Fixpoint isASCII (s : string) : bool :=
  match s with
  | EmptyString => true
  | String c s' => (nat_of_ascii c <? 128)%nat && isASCII s'
  end.

(** [strings.Split s sep] for a one-byte separator: the pieces between the
    separators, [n + 1] pieces for [n] separators (so [Split "" "."] is
    [[""]]). *)
Fixpoint Split (s : string) (sep : ascii) : list string :=
  match s with
  | EmptyString => [EmptyString]
  | String c s' =>
      if Ascii.eqb c sep then EmptyString :: Split s' sep
      else match Split s' sep with
           | [] => [String c EmptyString]
           | p :: ps => String c p :: ps
           end
  end.

(** [strings.Join elems sep]. *)
Fixpoint Join (elems : list string) (sep : string) : string :=
  match elems with
  | [] => EmptyString
  | [x] => x
  | x :: rest => x +:+ sep +:+ Join rest sep
  end.

(** [sort.Strings]: ascending byte-wise order. *)
Definition string_le (a b : string) : Prop := String.leb a b = true.

#[global] Instance string_le_dec : RelDecision string_le.
Proof. intros a b. unfold string_le. apply _. Defined.

Definition sort_Strings (l : list string) : list string := merge_sort string_le l.

(** Two strings equal up to the case of their ASCII letters (the ASCII part
    of [strings.EqualFold]): same length, and byte by byte either the same
    byte or an upper-case letter against its lower-case form. *)
Definition is_upper (c : ascii) : bool :=
  let n := nat_of_ascii c in (65 <=? n)%nat && (n <=? 90)%nat.

Definition byte_fold_eq (c d : ascii) : bool :=
  Ascii.eqb c d
  || (is_upper c && (nat_of_ascii d =? nat_of_ascii c + 32)%nat)
  || (is_upper d && (nat_of_ascii c =? nat_of_ascii d + 32)%nat).

Fixpoint EqualFoldASCII (s t : string) : bool :=
  match s, t with
  | EmptyString, EmptyString => true
  | String c s', String d t' => byte_fold_eq c d && EqualFoldASCII s' t'
  | _, _ => false
  end.

(** ** Collaborators *)

(** [*viper.Viper], as far as the registry uses it.  [Sub] answers [None]
    where viper returns a nil pointer. *)
Class ConfigView (V : Type) := {
  InConfig : V → string → bool;
  Sub : V → string → option V;
  AllKeys : V → list string;
  IsSet : V → string → bool;
  GetString : V → string → string;
}.

(** A value held in an [interface{}] slot of [logrus.Fields]. *)
Inductive iface :=
  | IString (s : string)
  | IInt (z : Z)
  | IBool (b : bool).

(** [logrus.Fields] is [map[string]interface{}]. *)
Abbreviation Fields := (gmap string iface).

(** A pointer: [None] is nil, [Some a] is the address [a] in the heap of the
    pointer's type. *)
Abbreviation ptr := (option nat).

(** Modelled from the spec: the struct behind [newNamedLogger], which
    registry.go uses but does not declare.  The constructor contract is
    [(name, contextFields, configSubtree, parent-or-nil)]; [l_reg] is the
    back-reference that [NewRegistry] assigns. *)
Record namedLogger := mkLogger {
  l_name : string;
  l_fields : ptr;
  l_config : ptr;
  l_parent : ptr;
  l_reg : ptr;
}.

(** The parts of the package that registry.go calls but does not define. *)
Class LoggerImpl (V : Type) := {
  (** [addLoggingDefaults v]: fills the view in place. *)
  addLoggingDefaults : V → V;
  (** [Logger.Configure]: what a call does to the logger it is called on,
      given the (possibly nil) view pointer. *)
  configure : namedLogger → ptr → namedLogger;
}.

(** [LoggerRegistry]; [config] is a [*viper.Viper], [store] maps a name to a
    [Logger] interface value (nil, or the address of a logger). *)
Record LoggerRegistry := mkRegistry {
  config : ptr;
  store : gmap string ptr;
}.

(** ** The heap and the monad *)

(** The program state: the package variable [RootName], one heap per
    pointer type, and the log of [Configure] calls (logger address and view
    pointer, oldest first). *)
Record World (V : Type) := mkWorld {
  RootName : string;
  vipers : list V;
  fieldmaps : list Fields;
  loggers : list namedLogger;
  registries : list LoggerRegistry;
  configured : list (nat * ptr);
}.
Arguments mkWorld {V}.
Arguments RootName {V}.
Arguments vipers {V}.
Arguments fieldmaps {V}.
Arguments loggers {V}.
Arguments registries {V}.
Arguments configured {V}.

(** The result of a call: it returns, or the goroutine panics. *)
Inductive outcome (A : Type) :=
  | Ok (a : A)
  | Panic.
Arguments Ok {A}.
Arguments Panic {A}.

Definition M (V A : Type) : Type := World V → outcome A * World V.

Definition ret {V A} (a : A) : M V A := λ w, (Ok a, w).

Definition bind {V A B} (m : M V A) (f : A → M V B) : M V B :=
  λ w, match m w with
       | (Ok a, w') => f a w'
       | (Panic, w') => (Panic, w')
       end.

Definition panic {V A} : M V A := λ w, (Panic, w).

Declare Scope go_scope.
Delimit Scope go_scope with go.
Bind Scope go_scope with M.
Notation "x ← y ; z" := (bind y (λ x, z))
  (at level 20, y at level 100, z at level 200, only parsing) : go_scope.
Notation "x ;; z" := (bind x (λ _, z))
  (at level 100, z at level 200, only parsing, right associativity) : go_scope.
Open Scope go_scope.

(** [for _, x := range xs { body }]. *)
Fixpoint for_range {V A} (xs : list A) (body : A → M V unit) : M V unit :=
  match xs with
  | [] => ret tt
  | x :: xs' => body x ;; for_range xs' body
  end.

(** A [range] loop whose body may [return] from the enclosing function:
    [Some r] is that return value, [None] means the loop ran to its end. *)
Fixpoint for_return {V A R} (xs : list A) (body : A → M V (option R))
  : M V (option R) :=
  match xs with
  | [] => ret None
  | x :: xs' =>
      r ← body x;
      match r with
      | Some v => ret (Some v)
      | None => for_return xs' body
      end
  end.

(** A [range] loop that threads a local variable. *)
Fixpoint for_fold {V A S} (xs : list A) (s : S) (body : S → A → M V S) : M V S :=
  match xs with
  | [] => ret s
  | x :: xs' => s' ← body s x; for_fold xs' s' body
  end.

Section Heap.
Context {V : Type}.

Definition get_RootName : M V string := λ w, (Ok (RootName w), w).

(** Dereference: nil (or an address that was never allocated) panics. *)
Definition deref {A} (heap : World V → list A) (p : ptr) : M V A :=
  λ w, match p with
       | None => (Panic, w)
       | Some a => match heap w !! a with
                   | Some x => (Ok x, w)
                   | None => (Panic, w)
                   end
       end.

Definition new_viper (v : V) : M V ptr :=
  λ w, (Ok (Some (length (vipers w))),
        mkWorld (RootName w) (vipers w ++ [v]) (fieldmaps w) (loggers w)
                (registries w) (configured w)).

Definition put_viper (a : nat) (v : V) : M V unit :=
  λ w, (Ok tt,
        mkWorld (RootName w) (<[a := v]> (vipers w)) (fieldmaps w) (loggers w)
                (registries w) (configured w)).

Definition new_fields (f : Fields) : M V ptr :=
  λ w, (Ok (Some (length (fieldmaps w))),
        mkWorld (RootName w) (vipers w) (fieldmaps w ++ [f]) (loggers w)
                (registries w) (configured w)).

Definition put_fields (a : nat) (f : Fields) : M V unit :=
  λ w, (Ok tt,
        mkWorld (RootName w) (vipers w) (<[a := f]> (fieldmaps w)) (loggers w)
                (registries w) (configured w)).

Definition new_logger (l : namedLogger) : M V ptr :=
  λ w, (Ok (Some (length (loggers w))),
        mkWorld (RootName w) (vipers w) (fieldmaps w) (loggers w ++ [l])
                (registries w) (configured w)).

Definition put_logger (a : nat) (l : namedLogger) : M V unit :=
  λ w, (Ok tt,
        mkWorld (RootName w) (vipers w) (fieldmaps w) (<[a := l]> (loggers w))
                (registries w) (configured w)).

Definition new_registry (r : LoggerRegistry) : M V ptr :=
  λ w, (Ok (Some (length (registries w))),
        mkWorld (RootName w) (vipers w) (fieldmaps w) (loggers w)
                (registries w ++ [r]) (configured w)).

Definition put_registry (a : nat) (r : LoggerRegistry) : M V unit :=
  λ w, (Ok tt,
        mkWorld (RootName w) (vipers w) (fieldmaps w) (loggers w)
                (<[a := r]> (registries w)) (configured w)).

Definition log_configure (a : nat) (cfg : ptr) : M V unit :=
  λ w, (Ok tt,
        mkWorld (RootName w) (vipers w) (fieldmaps w) (loggers w)
                (registries w) (configured w ++ [(a, cfg)])).

(** [m[k] = x] on a [logrus.Fields] map; assignment to a nil map panics. *)
Definition fields_set (m : ptr) (k : string) (x : iface) : M V unit :=
  f ← deref fieldmaps m;
  match m with
  | Some a => put_fields a (<[k := x]> f)
  | None => panic
  end.

(** [for k, v := range m]: the entries of the map, none for a nil map. *)
Definition fields_entries (m : ptr) : M V (list (string * iface)) :=
  match m with
  | None => ret []
  | Some _ => f ← deref fieldmaps m; ret (map_to_list f)
  end.

(** [r.store[k] = l]. *)
Definition store_set (r : ptr) (k : string) (l : ptr) : M V unit :=
  reg ← deref registries r;
  match r with
  | Some a => put_registry a (mkRegistry (config reg) (<[k := l]> (store reg)))
  | None => panic
  end.
End Heap.

(** ** The registry *)

Section Registry.
Context {V : Type} `{!ConfigView V, !LoggerImpl V}.

(** Methods of [*viper.Viper], called through a pointer. *)
Definition viper_InConfig (v : ptr) (key : string) : M V bool :=
  c ← deref vipers v; ret (InConfig c key).

Definition viper_IsSet (v : ptr) (key : string) : M V bool :=
  c ← deref vipers v; ret (IsSet c key).

Definition viper_GetString (v : ptr) (key : string) : M V string :=
  c ← deref vipers v; ret (GetString c key).

Definition viper_AllKeys (v : ptr) : M V (list string) :=
  c ← deref vipers v; ret (AllKeys c).

(** [v.Sub(key)] returns nil or a pointer to a new view. *)
Definition viper_Sub (v : ptr) (key : string) : M V ptr :=
  c ← deref vipers v;
  match Sub c key with
  | Some s => new_viper s
  | None => ret None
  end.

(** [addLoggingDefaults(v)] writes the defaults into the view [v] points
    to, so it needs [v] to be non-nil. *)
Definition call_addLoggingDefaults (v : ptr) : M V unit :=
  c ← deref vipers v;
  match v with
  | Some a => put_viper a (addLoggingDefaults c)
  | None => panic
  end.

(** Modelled from the spec: [newNamedLogger(name, fields, v, parent)],
    which registry.go calls but does not define, constructs a logger bound
    to that context and view: a new logger object holding its arguments. *)
Definition newNamedLogger (name : string) (fields v parent : ptr) : M V ptr :=
  new_logger (mkLogger name fields v parent None).

(** [l.reg = reg]. *)
Definition set_reg (l reg : ptr) : M V unit :=
  o ← deref loggers l;
  match l with
  | Some a =>
      put_logger a (mkLogger (l_name o) (l_fields o) (l_config o) (l_parent o) reg)
  | None => panic
  end.

(** [logger.Configure(cfg)] through the [Logger] interface: a nil
    interface panics; otherwise the logger is updated and the call logged. *)
Definition Logger_Configure (logger cfg : ptr) : M V unit :=
  o ← deref loggers logger;
  match logger with
  | Some a => put_logger a (configure o cfg);; log_configure a cfg
  | None => panic
  end.

(** The copy loop [for kk, vv := range context { fields[kk] = vv }]. *)
Definition copy_context (fields context : ptr) : M V unit :=
  entries ← fields_entries context;
  for_range entries (λ kv, fields_set fields kv.1 kv.2).

(** The body of [for _, k := range keys] in [NewRegistry], for the key
    [k]; [c] and [reg] are the enclosing function's variables. *)
Definition NewRegistry_module (c reg context : ptr) (k : string) : M V unit :=
  fields ← new_fields ∅;
  copy_context fields context;;
  ink ← viper_InConfig c k;
  v ← (if ink then viper_Sub c k else ret c);
  call_addLoggingDefaults v;;
  fields_set fields "module" (IString k);;
  isn ← viper_IsSet v "name";
  (if isn
   then s ← viper_GetString v "name"; fields_set fields "module" (IString s)
   else ret tt);;
  l ← newNamedLogger k fields v None;
  set_reg l reg;;
  store_set reg k l.

Definition NewRegistry (cfg context : ptr) : M V ptr :=
  inlog ← viper_InConfig cfg "logging";
  c ← (if inlog then viper_Sub cfg "logging" else ret cfg);
  keys ← viper_AllKeys c;
  reg ← new_registry (mkRegistry c ∅);
  for_range keys (NewRegistry_module c reg context);;
  (if (length keys =? 0)%nat
   then
     fields ← new_fields ∅;
     copy_context fields context;;
     rn ← get_RootName;
     fields_set fields "module" (IString rn);;
     rn ← get_RootName;
     l ← newNamedLogger rn fields c None;
     set_reg l reg;;
     rn ← get_RootName;
     store_set reg rn l
   else ret tt);;
  ret reg.

Definition GetOK (r : ptr) (name : string) : M V (ptr * bool) :=
  reg ← deref registries r;
  ret (match store reg !! ToLower name with
        | Some l => (l, true)
        | None => (None, false)
        end).

Definition Get (r : ptr) (name : string) : M V ptr :=
  res ← GetOK r name;
  if negb res.2 then ret None else ret res.1.

Definition Register (r : ptr) (path : string) (logger : ptr) : M V unit :=
  store_set r (ToLower path) logger.

Definition Root (r : ptr) : M V ptr :=
  rn ← get_RootName; Get r rn.

Definition findLongestMatchingPath (path : string) (cfg : ptr) : M V ptr :=
  let parts := Split path "." in
  let pl := length parts in
  res ← for_return (seq 0 pl) (λ i,
    let mod_ := pl - i in
    let k := Join (take mod_ parts) "." in
    isset ← viper_IsSet cfg k;
    if isset then s ← viper_Sub cfg k; ret (Some s) else ret None);
  ret (default None res).

Definition Reload (r : ptr) : M V unit :=
  reg ← deref registries r;
  let keys := sort_Strings (map_to_list (store reg)).*1 in
  configs ← for_fold keys (∅ : gmap string ptr) (λ configs key,
    reg ← deref registries r;
    cfg ← findLongestMatchingPath key (config reg);
    ret (<[key := cfg]> configs));
  for_range keys (λ k,
    reg ← deref registries r;
    let logger := default None (store reg !! k) in
    match configs !! k with
    | Some cfg => Logger_Configure logger cfg
    | None => ret tt
    end).
(** *** What the statements below speak about *)

(** The view [NewRegistry] works on: the [logging] section when the
    configuration has one, the configuration itself otherwise. *)
Definition logging_view (w : World V) (cfg : ptr) : option V :=
  match cfg with
  | None => None
  | Some a =>
      match vipers w !! a with
      | None => None
      | Some c => if InConfig c "logging" then Sub c "logging" else Some c
      end
  end.

(** The entries of the baseline context: a nil map has none. *)
Definition context_fields (w : World V) (context : ptr) : option Fields :=
  match context with
  | None => Some ∅
  | Some a => fieldmaps w !! a
  end.

(** The dotted prefix made of the first [m] segments of [path]. *)
Definition path_prefix (path : string) (m : nat) : string :=
  Join (take m (Split path ".")) ".".

(** The view a module's logger is bound to, once the defaults are in. *)
Definition module_view (c : V) (k : string) : option V :=
  if InConfig c k then addLoggingDefaults <$> Sub c k
  else Some (addLoggingDefaults c).

(** The value of the [module] field for key [k] and filled view [v]. *)
Definition module_name (v : V) (k : string) : string :=
  if IsSet v "name" then GetString v "name" else k.

(** Invariant I1 of the registry, for ASCII names: every key of the store
    is an ASCII string in lowercase. *)
Definition lowercase_store (reg : LoggerRegistry) : Prop :=
  ∀ k, is_Some (store reg !! k) → isASCII k = true ∧ ToLower k = k.

(** The logging view after [n] rounds of default filling (a module without
    a section of its own has the defaults written into the logging view
    itself). *)
Definition filled (n : nat) (cv : V) : V := Nat.iter n addLoggingDefaults cv.

(** Every key of the logging view [cv] has a view to bind its logger to:
    where the view has the key [InConfig], [Sub] does not answer nil. *)
Definition views_exist (cv : V) : bool :=
  forallb (λ n, forallb (λ k, bool_decide (is_Some (module_view (filled n cv) k)))
                        (AllKeys cv))
          (seq 0 (S (length (AllKeys cv)))).

(** The state of the loop over the keys in [NewRegistry] once the keys
    [done] have had their turn.  [F0] and [L0] are the sizes of the heaps
    of field maps and of loggers when the loop started, [ctx] the baseline
    context, [cv] the logging view at the start, [cp] and [ra] the
    addresses of the view and of the registry. *)
Definition modules_built (F0 L0 : nat) (context : ptr) (ctx : Fields) (cv : V)
    (cp ra : nat) (done : list string) (w : World V) : Prop :=
  (∃ n, (n ≤ length done)%nat ∧ vipers w !! cp = Some (filled n cv))
  ∧ context_fields w context = Some ctx
  ∧ (F0 ≤ length (fieldmaps w))%nat
  ∧ (L0 ≤ length (loggers w))%nat
  ∧ (length (fieldmaps w) - F0 = length (loggers w) - L0)%nat
  ∧ (∃ st,
       registries w !! ra = Some (mkRegistry (Some cp) st)
       ∧ dom st = list_to_set done
       ∧ ∀ k l, st !! k = Some l →
           ∃ la lg, l = Some la ∧ (L0 ≤ la)%nat
                    ∧ loggers w !! la = Some lg ∧ l_name lg = k)
  ∧ (∀ la lg, (L0 ≤ la)%nat → loggers w !! la = Some lg →
       l_fields lg = Some (F0 + (la - L0))%nat
       ∧ l_parent lg = None
       ∧ l_reg lg = Some ra
       ∧ ∃ n v,
           module_view (filled n cv) (l_name lg) = Some v
           ∧ fieldmaps w !! (F0 + (la - L0))%nat
             = Some (<["module" := IString (module_name v (l_name lg))]> ctx)).
End Registry.

(** ** The package variable and sequences of calls *)

Section Program.
Context {V : Type} `{!ConfigView V, !LoggerImpl V}.

(** An assignment [RootName = s] to the package variable. *)
Definition set_RootName (s : string) : M V unit :=
  λ w, (Ok tt,
        mkWorld s (vipers w) (fieldmaps w) (loggers w) (registries w) (configured w)).

(** [func init() { RootName = "root" }]. *)
Definition init : M V unit := set_RootName "root".

(** One call of an exported method on a registry, its result dropped. *)
Inductive call :=
  | CallGet (name : string)
  | CallGetOK (name : string)
  | CallRegister (path : string) (logger : ptr)
  | CallRoot
  | CallReload.

Definition run_call (r : ptr) (c : call) : M V unit :=
  match c with
  | CallGet name => Get r name;; ret tt
  | CallGetOK name => GetOK r name;; ret tt
  | CallRegister path logger => Register r path logger
  | CallRoot => Root r;; ret tt
  | CallReload => Reload r
  end.

(** The path a call registers under, if any, is an ASCII string. *)
Definition call_ascii (c : call) : bool :=
  match c with
  | CallRegister path _ => isASCII path
  | _ => true
  end.

(** A caller making the calls [cs] in order (a panic ends the run). *)
Definition run_calls (r : ptr) (cs : list call) : M V unit :=
  for_range cs (run_call r).

(** How often the defaults have been written into the logging view itself
    once the loop over the keys in [NewRegistry] has handled [keys], when it
    had been [n] times before: once more for each key that the view, as it
    is at the key's turn, does not have [InConfig]. *)
Fixpoint shared_fills (cv : V) (n : nat) (keys : list string) : nat :=
  match keys with
  | [] => n
  | k :: ks => shared_fills cv (if InConfig (filled n cv) k then n else S n) ks
  end.

(** What the logger of the key [k], made when the logging view had been
    filled [n] times, is bound to: the pointer [cp] of the logging view
    itself when the view does not have the key [InConfig], and otherwise a
    view of its own, at or above the address [V0], holding [Sub] of the key
    with the defaults filled in. *)
Definition bound_view (V0 : nat) (cv : V) (cp n : nat) (k : string)
    (lg : namedLogger) (w : World V) : Prop :=
  (InConfig (filled n cv) k = false ∧ l_config lg = Some cp)
  ∨ (InConfig (filled n cv) k = true
     ∧ ∃ va s, l_config lg = Some va ∧ (V0 ≤ va)%nat
               ∧ Sub (filled n cv) k = Some s
               ∧ vipers w !! va = Some (addLoggingDefaults s)).

(** The state of the loop over the keys in [NewRegistry] once the keys
    [done] have had their turn, as to the views: the logging view has been
    filled once for each key without a section; the [i]-th key has the
    [i]-th new logger, bound as [bound_view] says for the fill count at its
    turn; and the store holds, under each key, the logger of the last turn
    of that key.  [V0] and [L0] are the sizes of the heaps of views and of
    loggers when the loop started. *)
Definition views_bound (V0 L0 : nat) (cv : V) (cp ra : nat) (done : list string)
    (w : World V) : Prop :=
  (cp < V0)%nat
  ∧ (V0 ≤ length (vipers w))%nat
  ∧ length (loggers w) = (L0 + length done)%nat
  ∧ vipers w !! cp = Some (filled (shared_fills cv 0 done) cv)
  ∧ (∀ i k, done !! i = Some k →
       ∃ lg, loggers w !! (L0 + i)%nat = Some lg
             ∧ l_name lg = k
             ∧ bound_view V0 cv cp (shared_fills cv 0 (take i done)) k lg w)
  ∧ ∃ st,
      registries w !! ra = Some (mkRegistry (Some cp) st)
      ∧ ∀ k l, st !! k = Some l →
          ∃ i, l = Some (L0 + i)%nat ∧ done !! i = Some k
               ∧ ∀ j, (i < j)%nat → done !! j ≠ Some k.

(** [w'] holds what [w] holds, but for the registry at [ra]: the loggers,
    field maps and registries of [w] are where they were and as they were,
    and [RootName] is the same. *)
Definition extends (ra : nat) (w w' : World V) : Prop :=
  RootName w' = RootName w
  ∧ loggers w `prefix_of` loggers w'
  ∧ fieldmaps w `prefix_of` fieldmaps w'
  ∧ take ra (registries w') = take ra (registries w)
  ∧ length (registries w') = length (registries w).
End Program.

(** ** A configuration view to run the code on

    Nested string maps (keys in lowercase, as viper keeps them), addressed
    in viper's manner.  A lookup takes the dotted key apart and searches the
    map for the longest prefix of the path that is a key, then goes on below
    it with the rest of the path.  [AllKeys] lists the flattened paths of
    the leaves, [InConfig] tests the top-level keys, and [Sub] gives the map
    stored at a key (nil for a scalar or a missing key). *)
#[local] Unset Elimination Schemes.
Inductive cfgval :=
  | CStr (s : string)
  | CMap (m : list (string * cfgval)).
#[local] Set Elimination Schemes.

Abbreviation TreeView := (list (string * cfgval)).

Fixpoint assoc (k : string) (m : list (string * cfgval)) : option cfgval :=
  match m with
  | [] => None
  | (k', x) :: m' => if String.eqb k k' then Some x else assoc k m'
  end.

(** The first answer among those for the elements of a list. *)
Fixpoint first_some {A B} (f : A → option B) (l : list A) : option B :=
  match l with
  | [] => None
  | x :: l' => match f x with Some y => Some y | None => first_some f l' end
  end.

(** viper's [searchMapWithPathPrefixes]: the prefixes of [path] are tried
    from the longest; a prefix that is a key answers its value when it is
    the whole path, and otherwise the search goes on in the map below it; a
    scalar met before the end of the path gives way to the next prefix.
    [fuel] bounds the depth, the length of the path is enough. *)
Fixpoint searchMapWithPathPrefixes (fuel : nat) (source : list (string * cfgval))
    (path : list string) : option cfgval :=
  match fuel with
  | 0 => None
  | S fuel' =>
      match path with
      | [] => Some (CMap source)
      | _ =>
          first_some (λ i,
              match assoc (ToLower (Join (take i path) ".")) source with
              | Some next =>
                  if (i =? length path)%nat then Some next
                  else match next with
                       | CMap m => searchMapWithPathPrefixes fuel' m (drop i path)
                       | CStr _ => None
                       end
              | None => None
              end)
            (reverse (seq 1 (length path)))
      end
  end.

Definition tv_Get (v : TreeView) (key : string) : option cfgval :=
  let path := Split (ToLower key) "." in
  searchMapWithPathPrefixes (S (length path)) v path.

Definition tv_Sub (v : TreeView) (key : string) : option TreeView :=
  match tv_Get v key with
  | Some (CMap m) => Some m
  | _ => None
  end.

Definition tv_GetString (v : TreeView) (key : string) : string :=
  match tv_Get v key with
  | Some (CStr s) => s
  | _ => ""
  end.

(** The paths of the leaves below the value [x] that sits at [prefix]; an
    empty map has none. *)
Fixpoint flatten (prefix : string) (x : cfgval) : list string :=
  match x with
  | CStr _ => [prefix]
  | CMap m =>
      (fix go (l : list (string * cfgval)) : list string :=
         match l with
         | [] => []
         | (k, y) :: l' => (flatten (prefix +:+ "." +:+ k) y ++ go l')%list
         end) m
  end.

Definition tv_AllKeys (v : TreeView) : list string :=
  remove_dups (ToLower <$> concat ((λ kx, flatten kx.1 kx.2) <$> v)).

#[global] Instance TreeView_ConfigView : ConfigView TreeView := {
  InConfig v key := bool_decide (is_Some (assoc (ToLower key) v));
  Sub := tv_Sub;
  AllKeys := tv_AllKeys;
  IsSet v key := bool_decide (is_Some (tv_Get v key));
  GetString := tv_GetString;
}.

(** Defaults for the runs below: an unset [level] becomes ["info"];
    [Configure] rebinds the logger to the view it is given. *)
#[global] Instance TreeView_LoggerImpl : LoggerImpl TreeView := {
  addLoggingDefaults v :=
    if bool_decide (is_Some (tv_Get v "level")) then v else (v ++ [("level", CStr "info")])%list;
  configure o cfg := mkLogger (l_name o) (l_fields o) cfg (l_parent o) (l_reg o);
}.

(** The state at program start: [init] has set [RootName], the heaps hold
    what the caller built. *)
Definition start (root : string) (vs : list TreeView) (fs : list Fields) : World TreeView :=
  mkWorld root vs fs [] [] [].

(** Configurations to run the code on: one that declares the modules [a],
    [a.b] and [c] under [logging], with the settings [a.level], [a.b.name]
    and [c.level]; an empty one; and one with sections at ["a"] and
    ["a.b.c"] only. *)
Definition cfg_modules : TreeView :=
  [("logging",
    CMap [("a", CMap [("level", CStr "debug"); ("b", CMap [("name", CStr "AB")])]);
          ("c", CMap [("level", CStr "info")])])].

(** Its [logging] section. *)
Definition cv_modules : TreeView :=
  [("a", CMap [("level", CStr "debug"); ("b", CMap [("name", CStr "AB")])]);
   ("c", CMap [("level", CStr "info")])].

Definition w_modules : World TreeView :=
  start "root" [cfg_modules] [{["app" := IString "x"]}].

Definition w_empty (root : string) : World TreeView := start root [[]] [].

Definition cfg_sections : TreeView :=
  [("a", CMap [("level", CStr "info")]); ("a.b.c", CMap [("level", CStr "debug")])].

Definition w_sections : World TreeView := start "root" [cfg_sections] [].

(** A state holding one empty registry, to register loggers in. *)
Definition w_registry : World TreeView :=
  mkWorld "root" [] [] [] [mkRegistry None ∅] [].

(** A registry holding a logger under ["a.b"] and one under ["x"], over the
    view with sections at ["a"] and ["a.b.c"]. *)
Definition w_loggers : World TreeView :=
  mkWorld "root" [cfg_sections] []
    [mkLogger "a.b" None (Some 0) None (Some 0); mkLogger "x" None (Some 0) None (Some 0)]
    [mkRegistry (Some 0) {["a.b" := Some 0; "x" := Some 1]}] [].

(** A configuration whose [logging] entry is a scalar, and one whose
    logging section has a scalar under the key [level]. *)
Definition w_scalar_logging : World TreeView :=
  start "root" [[("logging", CStr "debug")]] [].

Definition cv_scalar_key : TreeView := [("level", CStr "debug")].

Definition w_scalar_key : World TreeView :=
  start "root" [[("logging", CMap cv_scalar_key)]] [].



(** A logging section with the key ["x.y"] written with its dot, holding a
    section, beside the section [x] with the scalar [y]: the leaf path
    ["x.y"] is then a top-level key too and has a view of its own, while
    ["x.y.name"] has none. *)
Definition cv_dotted : TreeView :=
  [("x.y", CMap [("name", CStr "N")]); ("x", CMap [("y", CStr "1")])].

Definition w_dotted : World TreeView :=
  start "root" [[("logging", CMap cv_dotted)]] [].

(** A view with a section [a] that holds the scalar [level]. *)
Definition cfg_leaf : TreeView := [("a", CMap [("level", CStr "info")])].

Definition w_leaf : World TreeView := start "root" [cfg_leaf] [].

(** * Properties *)

(** ** Strings *)

Lemma lower_byte_fold c d : byte_fold_eq c d = true → lower_byte c = lower_byte d.
Proof.
  unfold byte_fold_eq, is_upper, lower_byte.
  intros Hf.
  apply orb_prop in Hf as [Hf|Hf]; [apply orb_prop in Hf as [Hf|Hf]|].
  - apply Ascii.eqb_eq in Hf. by subst.
  - apply andb_prop in Hf as [Hu He]. apply Nat.eqb_eq in He.
    rewrite Hu, He.
    destruct ((65 <=? nat_of_ascii c + 32)%nat && (nat_of_ascii c + 32 <=? 90)%nat) eqn:E.
    + apply andb_prop in Hu as [Hu _], E as [_ E].
      apply Nat.leb_le in Hu, E. lia.
    + by rewrite <- He, ascii_nat_embedding.
  - apply andb_prop in Hf as [Hu He]. apply Nat.eqb_eq in He.
    rewrite Hu, He.
    destruct ((65 <=? nat_of_ascii d + 32)%nat && (nat_of_ascii d + 32 <=? 90)%nat) eqn:E.
    + apply andb_prop in Hu as [Hu _], E as [_ E].
      apply Nat.leb_le in Hu, E. lia.
    + by rewrite <- He, ascii_nat_embedding.
Qed.

Lemma ToLower_fold s t : EqualFoldASCII s t = true → ToLower s = ToLower t.
Proof.
  revert t. induction s as [|c s IH]; intros [|d t]; simpl; try done.
  intros H. apply andb_prop in H as [Hc Hs].
  by rewrite (lower_byte_fold _ _ Hc), (IH _ Hs).
Qed.

Lemma lower_byte_idem c : lower_byte (lower_byte c) = lower_byte c.
Proof.
  unfold lower_byte.
  destruct ((65 <=? nat_of_ascii c)%nat && (nat_of_ascii c <=? 90)%nat) eqn:E; [|by rewrite E].
  apply andb_prop in E as [E1 E2]. apply Nat.leb_le in E1, E2.
  rewrite nat_ascii_embedding by lia.
  destruct ((65 <=? nat_of_ascii c + 32)%nat && (nat_of_ascii c + 32 <=? 90)%nat) eqn:E'; [|done].
  apply andb_prop in E' as [_ E']. apply Nat.leb_le in E'. lia.
Qed.

Lemma isASCII_ToLower s : isASCII s = true → isASCII (ToLower s) = true.
Proof.
  induction s as [|c s IH]; simpl; [done|].
  intros [Hc Hs]%andb_prop. rewrite (IH Hs), andb_true_r.
  apply Nat.ltb_lt in Hc. apply Nat.ltb_lt. unfold lower_byte.
  destruct ((65 <=? nat_of_ascii c)%nat && (nat_of_ascii c <=? 90)%nat) eqn:E; [|done].
  apply andb_prop in E as [_ E]. apply Nat.leb_le in E.
  rewrite nat_ascii_embedding by lia. lia.
Qed.

Lemma ToLower_idem s : ToLower (ToLower s) = ToLower s.
Proof. induction s as [|c s IH]; simpl; [done|]. by rewrite lower_byte_idem, IH. Qed.

Lemma Split_nonempty s sep : Split s sep ≠ [].
Proof. destruct s as [|c s]; simpl; [done|]. by destruct (Ascii.eqb c sep), (Split s sep). Qed.

Lemma Join_Split s : Join (Split s ".") "." = s.
Proof.
  induction s as [|c s IH]; simpl; [done|].
  pose proof (Split_nonempty s ".") as Hne.
  destruct (Ascii.eqb c ".") eqn:E.
  - apply Ascii.eqb_eq in E as ->.
    destruct (Split s ".") as [|p ps]; [done|]. simpl in *. by rewrite IH.
  - destruct (Split s ".") as [|p ps]; [done|].
    destruct ps as [|q ps]; simpl in *; by rewrite <- IH.
Qed.

(** ** Running the monad *)

Section Run.
Context {V : Type}.
Implicit Types w : World V.

Lemma bind_Ok {A B} (m : M V A) (f : A → M V B) w a w' :
  m w = (Ok a, w') → bind m f w = f a w'.
Proof. unfold bind. by intros ->. Qed.

Lemma bind_inv {A B} (m : M V A) (f : A → M V B) w b w' :
  bind m f w = (Ok b, w') → ∃ a w1, m w = (Ok a, w1) ∧ f a w1 = (Ok b, w').
Proof.
  unfold bind. destruct (m w) as [[a|] w1]; [|done]. intros. by exists a, w1.
Qed.

Lemma bind_assoc_run {A B C} (m : M V A) (f : A → M V B) (g : B → M V C) w :
  bind (bind m f) g w = bind m (λ x, bind (f x) g) w.
Proof. unfold bind. by destruct (m w) as [[a|] w1]. Qed.

Lemma bind_ret_run {A B} (a : A) (f : A → M V B) w : bind (ret a) f w = f a w.
Proof. done. Qed.

Lemma deref_Some {A} (heap : World V → list A) a x w :
  heap w !! a = Some x → deref heap (Some a) w = (Ok x, w).
Proof. unfold deref. by intros ->. Qed.

(** *** Frames: the parts of the state a computation leaves alone *)

Definition keeps {X A} (π : World V → X) (m : M V A) : Prop :=
  ∀ w, π (m w).2 = π w.

Lemma keeps_ret {X A} (π : World V → X) (a : A) : keeps π (ret a).
Proof. done. Qed.

Lemma keeps_panic {X A} (π : World V → X) : keeps π (panic (A:=A)).
Proof. done. Qed.

Lemma keeps_bind {X A B} (π : World V → X) (m : M V A) (f : A → M V B) :
  keeps π m → (∀ a, keeps π (f a)) → keeps π (bind m f).
Proof.
  intros Hm Hf w. unfold bind. specialize (Hm w).
  destruct (m w) as [[a|] w1]; simpl in *; [|done].
  by rewrite Hf.
Qed.

Lemma keeps_deref {X A} (π : World V → X) (heap : World V → list A) p :
  keeps π (deref heap p).
Proof. intros w. unfold deref. destruct p; [destruct (heap w !! _)|]; done. Qed.

Lemma keeps_for_range {X A} (π : World V → X) (xs : list A) body :
  (∀ x, keeps π (body x)) → keeps π (for_range xs body).
Proof.
  intros Hb. induction xs as [|x xs IH]; simpl.
  - apply keeps_ret.
  - apply keeps_bind; auto.
Qed.

Lemma keeps_for_fold {X A S} (π : World V → X) (xs : list A) (s : S) body :
  (∀ s x, keeps π (body s x)) → keeps π (for_fold xs s body).
Proof.
  intros Hb. revert s. induction xs as [|x xs IH]; intros s; simpl.
  - apply keeps_ret.
  - apply keeps_bind; auto.
Qed.

Lemma keeps_for_return {X A R} (π : World V → X) (xs : list A)
    (body : A → M V (option R)) :
  (∀ x, keeps π (body x)) → keeps π (for_return xs body).
Proof.
  intros Hb. induction xs as [|x xs IH]; simpl.
  - apply keeps_ret.
  - apply keeps_bind; [auto|]. intros [r|]; [apply keeps_ret | done].
Qed.
End Run.

(** One step of a run: reassociate, then let [tac] evaluate the first call. *)
Ltac run_with tac := rewrite ?bind_assoc_run; erewrite bind_Ok; [|tac].
Ltac run_prim := run_with ltac:(reflexivity).

Create HintDb keeps.
#[global] Hint Resolve keeps_ret keeps_panic keeps_deref : keeps.

(** ** Lookup and registration *)

Section Lookup.
Context {V : Type} `{!ConfigView V, !LoggerImpl V}.
Implicit Types w : World V.

Lemma GetOK_run w a reg name :
  registries w !! a = Some reg →
  GetOK (Some a) name w =
    (Ok (match store reg !! ToLower name with
         | Some l => (l, true)
         | None => (None, false)
         end), w).
Proof. intros Hr. unfold GetOK. by rewrite (bind_Ok _ _ _ _ _ (deref_Some _ _ _ _ Hr)). Qed.

Lemma Register_run w a reg path l :
  registries w !! a = Some reg →
  Register (Some a) path l w =
    (Ok tt, mkWorld (RootName w) (vipers w) (fieldmaps w) (loggers w)
              (<[a := mkRegistry (config reg) (<[ToLower path := l]> (store reg))]>
                 (registries w))
              (configured w)).
Proof.
  intros Hr. unfold Register, store_set.
  by rewrite (bind_Ok _ _ _ _ _ (deref_Some _ _ _ _ Hr)).
Qed.

Lemma Get_run w a reg name :
  registries w !! a = Some reg →
  Get (Some a) name w = (Ok (default None (store reg !! ToLower name)), w).
Proof.
  intros Hr. unfold Get. rewrite (bind_Ok _ _ _ _ _ (GetOK_run _ _ _ _ Hr)).
  by destruct (store reg !! ToLower name).
Qed.

Lemma Root_run w a reg :
  registries w !! a = Some reg →
  Root (Some a) w = (Ok (default None (store reg !! ToLower (RootName w))), w).
Proof. intros Hr. unfold Root, get_RootName. simpl. unfold bind. by apply Get_run. Qed.

(** C7: after [Register(path, l)], [GetOK(name)] returns [(l, true)] for
    every [name] equal to [path] up to ASCII case; a second [Register] on a
    path equal to it up to case replaces the entry, and [GetOK] then
    returns the new logger. *)
Theorem Register_GetOK_roundtrip w a reg path name path' (l l' : ptr) :
  registries w !! a = Some reg →
  EqualFoldASCII name path = true →
  EqualFoldASCII path' path = true →
  ((Register (Some a) path l;; GetOK (Some a) name) w).1 = Ok (l, true)
  ∧ ((Register (Some a) path l;; Register (Some a) path' l';;
      GetOK (Some a) name) w).1 = Ok (l', true).
Proof.
  intros Hr Hn Hp.
  apply ToLower_fold in Hn, Hp.
  assert (Ha : a < length (registries w)) by (by eapply lookup_lt_Some).
  split.
  - rewrite (bind_Ok _ _ _ _ _ (Register_run _ _ _ path l Hr)).
    erewrite GetOK_run; [|simpl; by apply list_lookup_insert_eq].
    simpl. by rewrite Hn, lookup_insert_eq.
  - rewrite (bind_Ok _ _ _ _ _ (Register_run _ _ _ path l Hr)).
    erewrite bind_Ok; [|apply Register_run; simpl; by apply list_lookup_insert_eq].
    erewrite GetOK_run;
      [|simpl; apply list_lookup_insert_eq; by rewrite length_insert].
    simpl. by rewrite Hn, Hp, lookup_insert_eq.
Qed.
End Lookup.

(** ** Path resolution *)

Section Resolution.
Context {V : Type} `{!ConfigView V, !LoggerImpl V}.
Implicit Types w : World V.

Lemma viper_IsSet_run w a c key :
  vipers w !! a = Some c → viper_IsSet (Some a) key w = (Ok (IsSet c key), w).
Proof. intros Hc. unfold viper_IsSet. by rewrite (bind_Ok _ _ _ _ _ (deref_Some _ _ _ _ Hc)). Qed.

Lemma viper_Sub_run w a c key :
  vipers w !! a = Some c →
  viper_Sub (Some a) key w =
    match Sub c key with
    | Some s => new_viper s w
    | None => (Ok None, w)
    end.
Proof.
  intros Hc. unfold viper_Sub. rewrite (bind_Ok _ _ _ _ _ (deref_Some _ _ _ _ Hc)).
  by destruct (Sub c key).
Qed.

(** The loop of [findLongestMatchingPath] over the indices [is]: it stops
    at the first index whose prefix is set. *)
Lemma resolve_loop_hit w a c parts pl (is1 is2 : list nat) i :
  vipers w !! a = Some c →
  (∀ j, j ∈ is1 → IsSet c (Join (take (pl - j) parts) ".") = false) →
  IsSet c (Join (take (pl - i) parts) ".") = true →
  for_return (is1 ++ i :: is2)%list (λ i,
      let mod_ := pl - i in
      let k := Join (take mod_ parts) "." in
      isset ← viper_IsSet (Some a) k;
      if isset then s ← viper_Sub (Some a) k; ret (Some s) else ret None) w
  = (s ← viper_Sub (Some a) (Join (take (pl - i) parts) "."); ret (Some s)) w.
Proof.
  intros Hc Hno Hyes. induction is1 as [|j is1 IH]; simpl.
  - run_with ltac:(by apply viper_IsSet_run).
    rewrite Hyes, bind_assoc_run. unfold bind.
    by destruct (viper_Sub _ _ w) as [[s|] w1].
  - run_with ltac:(by apply viper_IsSet_run).
    rewrite Hno by apply list_elem_of_here. rewrite bind_ret_run.
    apply IH. intros j' Hj'. apply Hno. by apply list_elem_of_further.
Qed.

Lemma resolve_loop_miss w a c parts pl (js : list nat) :
  vipers w !! a = Some c →
  (∀ j, j ∈ js → IsSet c (Join (take (pl - j) parts) ".") = false) →
  for_return js (λ i,
      let mod_ := pl - i in
      let k := Join (take mod_ parts) "." in
      isset ← viper_IsSet (Some a) k;
      if isset then s ← viper_Sub (Some a) k; ret (Some s) else ret None) w
  = (Ok None, w).
Proof.
  intros Hc Hno. induction js as [|j js IH]; simpl; [done|].
  run_with ltac:(by apply viper_IsSet_run).
  rewrite Hno by apply list_elem_of_here. rewrite bind_ret_run.
  apply IH. intros j' Hj'. apply Hno. by apply list_elem_of_further.
Qed.

Lemma findLongestMatchingPath_hit w a c path (m : nat) :
  vipers w !! a = Some c →
  (1 ≤ m ≤ length (Split path "."))%nat →
  IsSet c (path_prefix path m) = true →
  (∀ m' : nat, (m < m' ≤ length (Split path "."))%nat → IsSet c (path_prefix path m') = false) →
  findLongestMatchingPath path (Some a) w = viper_Sub (Some a) (path_prefix path m) w.
Proof.
  intros Hc Hm Hset Hlonger. unfold findLongestMatchingPath, path_prefix in *.
  set (parts := Split path ".") in *. set (pl := length parts) in *.
  assert (Hseq : seq 0 pl = (seq 0 (pl - m) ++ (pl - m) :: seq (S (pl - m)) (m - 1))%list).
  { replace pl with ((pl - m) + S (m - 1)) at 1 by lia.
    rewrite seq_app. simpl. reflexivity. }
  rewrite Hseq.
  assert (Hpm : pl - (pl - m) = m) by lia.
  unfold bind at 1.
  rewrite (resolve_loop_hit w a c parts pl); [|done| |by rewrite Hpm].
  2:{ intros j Hj. apply elem_of_seq in Hj. apply Hlonger. lia. }
  rewrite Hpm. unfold bind.
  by destruct (viper_Sub _ _ w) as [[s|] w1].
Qed.

Lemma findLongestMatchingPath_miss w a c path :
  vipers w !! a = Some c →
  (∀ m : nat, (1 ≤ m ≤ length (Split path "."))%nat →
        IsSet c (path_prefix path m) = false) →
  findLongestMatchingPath path (Some a) w = (Ok None, w).
Proof.
  intros Hc Hno. unfold findLongestMatchingPath, path_prefix in *.
  unfold bind at 1. rewrite (resolve_loop_miss w a c); [done..|].
  intros j Hj. apply elem_of_seq in Hj. apply Hno. lia.
Qed.
Lemma path_prefix_full path : path_prefix path (length (Split path ".")) = path.
Proof. unfold path_prefix. by rewrite firstn_all, Join_Split. Qed.

(** C2: [findLongestMatchingPath] splits the key on ['.'] and tests the
    prefixes from the whole key (the prefix of all its segments) down to its
    first segment, one segment shorter each time, and returns [Sub] of the
    first, hence longest, prefix that [IsSet]; when no prefix is set it
    returns nil.  With ["a"] and ["a.b.c"] set and ["a.b"] not set, the key
    ["a.b.c.d"] (itself not set) resolves to the ["a.b.c"] subtree and the
    key ["a.b"] to the ["a"] subtree. *)
Theorem findLongestMatchingPath_longest_prefix w a c :
  vipers w !! a = Some c →
  (∀ path, path_prefix path (length (Split path ".")) = path)
  ∧ (∀ path (m : nat),
       (1 ≤ m ≤ length (Split path "."))%nat →
       IsSet c (path_prefix path m) = true →
       (∀ m' : nat, (m < m' ≤ length (Split path "."))%nat →
                    IsSet c (path_prefix path m') = false) →
       findLongestMatchingPath path (Some a) w
       = viper_Sub (Some a) (path_prefix path m) w)
  ∧ (∀ path,
       (∀ m : nat, (1 ≤ m ≤ length (Split path "."))%nat →
                   IsSet c (path_prefix path m) = false) →
       findLongestMatchingPath path (Some a) w = (Ok None, w))
  ∧ (IsSet c "a" = true → IsSet c "a.b.c" = true → IsSet c "a.b" = false →
     (IsSet c "a.b.c.d" = false →
      findLongestMatchingPath "a.b.c.d" (Some a) w = viper_Sub (Some a) "a.b.c" w)
     ∧ findLongestMatchingPath "a.b" (Some a) w = viper_Sub (Some a) "a" w).
Proof.
  intros Hc. split; [apply path_prefix_full|].
  split; [intros; by apply (findLongestMatchingPath_hit w a c)|].
  split; [intros; by apply (findLongestMatchingPath_miss w a c)|].
  intros Ha Habc Hab. split.
  - intros Habcd.
    apply (findLongestMatchingPath_hit w a c "a.b.c.d" 3 Hc); simpl; [lia|done|].
    intros m' Hm'. assert (m' = 4) as -> by lia. done.
  - apply (findLongestMatchingPath_hit w a c "a.b" 1 Hc); simpl; [lia|done|].
    intros m' Hm'. assert (m' = 2) as -> by lia. done.
Qed.
End Resolution.

(** ** Heap operations *)

Section HeapFacts.
Context {V : Type} `{!ConfigView V, !LoggerImpl V}.
Implicit Types w : World V.

Lemma world_eta w :
  mkWorld (RootName w) (vipers w) (fieldmaps w) (loggers w) (registries w)
          (configured w) = w.
Proof. by destruct w. Qed.

Lemma lookup_snoc {A} (l : list A) (x : A) : (l ++ [x])%list !! length l = Some x.
Proof. rewrite lookup_app_r by lia. by rewrite Nat.sub_diag. Qed.

Lemma insert_snoc {A} (l : list A) (x y : A) :
  <[length l := y]> (l ++ [x])%list = (l ++ [y])%list.
Proof. rewrite insert_app_r_alt by lia. by rewrite Nat.sub_diag. Qed.

Lemma viper_InConfig_run w a c key :
  vipers w !! a = Some c → viper_InConfig (Some a) key w = (Ok (InConfig c key), w).
Proof. intros Hc. unfold viper_InConfig. by run_with ltac:(by apply deref_Some). Qed.

Lemma viper_GetString_run w a c key :
  vipers w !! a = Some c → viper_GetString (Some a) key w = (Ok (GetString c key), w).
Proof. intros Hc. unfold viper_GetString. by run_with ltac:(by apply deref_Some). Qed.

Lemma viper_AllKeys_run w a c :
  vipers w !! a = Some c → viper_AllKeys (Some a) w = (Ok (AllKeys c), w).
Proof. intros Hc. unfold viper_AllKeys. by run_with ltac:(by apply deref_Some). Qed.

Lemma call_addLoggingDefaults_run w a c :
  vipers w !! a = Some c →
  call_addLoggingDefaults (Some a) w =
    (Ok tt, mkWorld (RootName w) (<[a := addLoggingDefaults c]> (vipers w))
              (fieldmaps w) (loggers w) (registries w) (configured w)).
Proof. intros Hc. unfold call_addLoggingDefaults. by run_with ltac:(by apply deref_Some). Qed.

Lemma fields_set_run w a f k x :
  fieldmaps w !! a = Some f →
  fields_set (Some a) k x w =
    (Ok tt, mkWorld (RootName w) (vipers w) (<[a := <[k := x]> f]> (fieldmaps w))
              (loggers w) (registries w) (configured w)).
Proof. intros Hf. unfold fields_set. by run_with ltac:(by apply deref_Some). Qed.

Lemma set_reg_run w a o reg :
  loggers w !! a = Some o →
  set_reg (Some a) reg w =
    (Ok tt, mkWorld (RootName w) (vipers w) (fieldmaps w)
              (<[a := mkLogger (l_name o) (l_fields o) (l_config o) (l_parent o) reg]>
                 (loggers w))
              (registries w) (configured w)).
Proof. intros Ho. unfold set_reg. by run_with ltac:(by apply deref_Some). Qed.

Lemma store_set_run w a reg k l :
  registries w !! a = Some reg →
  store_set (Some a) k l w =
    (Ok tt, mkWorld (RootName w) (vipers w) (fieldmaps w) (loggers w)
              (<[a := mkRegistry (config reg) (<[k := l]> (store reg))]> (registries w))
              (configured w)).
Proof. intros Hr. unfold store_set. by run_with ltac:(by apply deref_Some). Qed.

Lemma Logger_Configure_run w a o cfg :
  loggers w !! a = Some o →
  Logger_Configure (Some a) cfg w =
    (Ok tt, mkWorld (RootName w) (vipers w) (fieldmaps w)
              (<[a := configure o cfg]> (loggers w)) (registries w)
              (configured w ++ [(a, cfg)])).
Proof. intros Ho. unfold Logger_Configure. by run_with ltac:(by apply deref_Some). Qed.

(** Inserting the entries of a map one by one rebuilds the map. *)
Lemma foldl_insert_entries (l : list (string * iface)) (m0 : Fields) :
  NoDup l.*1 →
  foldl (λ f kv, <[kv.1 := kv.2]> f) m0 l = list_to_map l ∪ m0.
Proof.
  revert m0. induction l as [|[k x] l IH]; intros m0 Hnd; simpl.
  - by rewrite (left_id_L ∅ (∪)).
  - apply NoDup_cons in Hnd as [Hk Hnd]. rewrite IH by done.
    rewrite <- insert_union_l. apply eq_sym, insert_union_r.
    by apply not_elem_of_list_to_map_1.
Qed.

Lemma copy_loop_run w a f0 (entries : list (string * iface)) :
  fieldmaps w !! a = Some f0 →
  for_range entries (λ kv, fields_set (Some a) kv.1 kv.2) w =
    (Ok tt, mkWorld (RootName w) (vipers w)
              (<[a := foldl (λ f kv, <[kv.1 := kv.2]> f) f0 entries]> (fieldmaps w))
              (loggers w) (registries w) (configured w)).
Proof.
  revert w f0. induction entries as [|[k x] entries IH]; intros w f0 Hf; simpl.
  - rewrite list_insert_id by done. by rewrite world_eta.
  - run_with ltac:(by apply fields_set_run).
    erewrite IH; simpl.
    + by rewrite list_insert_insert_eq.
    + apply list_lookup_insert_eq. by eapply lookup_lt_Some.
Qed.

(** The copy loop leaves a fresh empty map holding the baseline context. *)
Lemma copy_context_run w a context ctx :
  fieldmaps w !! a = Some ∅ →
  context_fields w context = Some ctx →
  copy_context (Some a) context w =
    (Ok tt, mkWorld (RootName w) (vipers w) (<[a := ctx]> (fieldmaps w))
              (loggers w) (registries w) (configured w)).
Proof.
  intros Ha Hctx. unfold copy_context, fields_entries.
  destruct context as [ca|]; simpl in Hctx.
  - rewrite bind_assoc_run. run_with ltac:(by apply deref_Some).
    rewrite bind_ret_run, (copy_loop_run _ _ _ _ Ha).
    rewrite foldl_insert_entries by apply NoDup_fst_map_to_list.
    by rewrite list_to_map_to_list, (right_id_L ∅ (∪)).
  - injection Hctx as <-. rewrite bind_ret_run. simpl.
    rewrite list_insert_id by done. by rewrite world_eta.
Qed.
End HeapFacts.

(** ** Construction *)

Section Construction.
Context {V : Type} `{!ConfigView V, !LoggerImpl V}.
Implicit Types w : World V.

Lemma context_fields_snoc (w : World V) context ctx (vs : list V) f ls rs cs rn :
  context_fields w context = Some ctx →
  context_fields (mkWorld rn vs (fieldmaps w ++ [f])%list ls rs cs) context = Some ctx.
Proof.
  destruct context as [a|]; simpl; [|done]. intros H. by apply lookup_app_l_Some.
Qed.

(** One turn of the loop over the keys, when the module's view exists. *)
Lemma NewRegistry_module_run w cp cv ra rg context ctx k v' :
  vipers w !! cp = Some cv →
  registries w !! ra = Some rg →
  context_fields w context = Some ctx →
  module_view cv k = Some v' →
  NewRegistry_module (Some cp) (Some ra) context k w =
    (Ok tt,
     mkWorld (RootName w)
       (if InConfig cv k then (vipers w ++ [v'])%list else <[cp := v']> (vipers w))
       (fieldmaps w ++ [<["module" := IString (module_name v' k)]> ctx])%list
       (loggers w ++
          [mkLogger k (Some (length (fieldmaps w)))
             (if InConfig cv k then Some (length (vipers w)) else Some cp)
             None (Some ra)])%list
       (<[ra := mkRegistry (config rg) (<[k := Some (length (loggers w))]> (store rg))]>
          (registries w))
       (configured w)).
Proof.
  intros Hc Hr Hctx Hv. unfold NewRegistry_module.
  run_prim.
  run_with ltac:(apply copy_context_run; simpl;
                 [apply lookup_snoc | by apply context_fields_snoc]).
  simpl. rewrite insert_snoc.
  run_with ltac:(by apply viper_InConfig_run).
  unfold module_view in Hv. unfold module_name.
  destruct (InConfig cv k) eqn:Hin.
  - destruct (Sub cv k) as [s|] eqn:Hs; simplify_eq/=.
    run_with ltac:(erewrite viper_Sub_run by (simpl; exact Hc); rewrite Hs; reflexivity).
    simpl.
    run_with ltac:(apply call_addLoggingDefaults_run; simpl; apply lookup_snoc).
    simpl. rewrite insert_snoc.
    run_with ltac:(apply fields_set_run; simpl; apply lookup_snoc).
    simpl. rewrite insert_snoc.
    run_with ltac:(apply viper_IsSet_run; simpl; apply lookup_snoc).
    destruct (IsSet (addLoggingDefaults s) "name") eqn:Hn.
    + run_with ltac:(apply viper_GetString_run; simpl; apply lookup_snoc).
      run_with ltac:(apply fields_set_run; simpl; apply lookup_snoc).
      simpl. rewrite insert_snoc, insert_insert_eq.
      run_prim. simpl.
      run_with ltac:(apply set_reg_run; simpl; apply lookup_snoc).
      simpl. rewrite insert_snoc.
      by erewrite store_set_run by (simpl; exact Hr).
    + rewrite bind_ret_run.
      run_prim. simpl.
      run_with ltac:(apply set_reg_run; simpl; apply lookup_snoc).
      simpl. rewrite insert_snoc.
      by erewrite store_set_run by (simpl; exact Hr).
  - simplify_eq/=.
    assert (Hcp : cp < length (vipers w)) by by eapply lookup_lt_Some.
    rewrite bind_ret_run.
    run_with ltac:(by apply call_addLoggingDefaults_run).
    run_with ltac:(apply fields_set_run; simpl; apply lookup_snoc).
    simpl. rewrite insert_snoc.
    run_with ltac:(apply viper_IsSet_run; simpl; by apply list_lookup_insert_eq).
    destruct (IsSet (addLoggingDefaults cv) "name") eqn:Hn.
    + run_with ltac:(apply viper_GetString_run; simpl; by apply list_lookup_insert_eq).
      run_with ltac:(apply fields_set_run; simpl; apply lookup_snoc).
      simpl. rewrite insert_snoc, insert_insert_eq.
      run_prim. simpl.
      run_with ltac:(apply set_reg_run; simpl; apply lookup_snoc).
      simpl. rewrite insert_snoc.
      by erewrite store_set_run by (simpl; exact Hr).
    + rewrite bind_ret_run.
      run_prim. simpl.
      run_with ltac:(apply set_reg_run; simpl; apply lookup_snoc).
      simpl. rewrite insert_snoc.
      by erewrite store_set_run by (simpl; exact Hr).
Qed.

(** When the module's view is missing ([Sub] gave nil), the turn panics. *)
Lemma NewRegistry_module_panics w cp cv ra context ctx k :
  vipers w !! cp = Some cv →
  context_fields w context = Some ctx →
  module_view cv k = None →
  (NewRegistry_module (Some cp) (Some ra) context k w).1 = Panic.
Proof.
  intros Hc Hctx Hv. unfold NewRegistry_module.
  run_prim.
  run_with ltac:(apply copy_context_run; simpl;
                 [apply lookup_snoc | by apply context_fields_snoc]).
  run_with ltac:(by apply viper_InConfig_run).
  unfold module_view in Hv.
  destruct (InConfig cv k) eqn:Hin; [|done].
  destruct (Sub cv k) as [s|] eqn:Hs; [done|].
  run_with ltac:(erewrite viper_Sub_run by (simpl; exact Hc); rewrite Hs; reflexivity).
  reflexivity.
Qed.

Lemma modules_built_step F0 L0 context ctx cv0 cp ra done k w w' :
  modules_built F0 L0 context ctx cv0 cp ra done w →
  NewRegistry_module (Some cp) (Some ra) context k w = (Ok tt, w') →
  modules_built F0 L0 context ctx cv0 cp ra (done ++ [k]) w'.
Proof.
  intros ((n & Hn & Hc) & Hctx & HF & HL & Hlen & (st & Hr & Hdom & Hst) & Hlg) Hrun.
  set (cv := filled n cv0) in *.
  destruct (module_view cv k) as [v'|] eqn:Hv.
  2:{ pose proof (NewRegistry_module_panics w cp cv ra context ctx k Hc Hctx Hv) as Hp.
      by rewrite Hrun in Hp. }
  rewrite (NewRegistry_module_run w cp cv ra _ context ctx k v' Hc Hr Hctx Hv) in Hrun.
  injection Hrun as <-.
  assert (Hcp : (cp < length (vipers w))%nat) by by eapply lookup_lt_Some.
  assert (Hra : (ra < length (registries w))%nat) by by eapply lookup_lt_Some.
  unfold modules_built; simpl.
  split_and!.
  - unfold module_view in Hv. rewrite length_app. simpl.
    destruct (InConfig cv k).
    + exists n. split; [lia|]. by apply lookup_app_l_Some.
    + injection Hv as <-. exists (S n). split; [lia|]. by apply list_lookup_insert_eq.
  - by apply context_fields_snoc.
  - rewrite length_app. simpl. lia.
  - rewrite length_app. simpl. lia.
  - rewrite !length_app. simpl. lia.
  - eexists. split; [by apply list_lookup_insert_eq|]. split.
    + rewrite dom_insert_L, Hdom, list_to_set_app_L. simpl.
      by rewrite (right_id_L ∅ (∪)), (comm_L (∪)).
    + intros k' l Hk'. destruct (decide (k = k')) as [->|Hne].
      * rewrite lookup_insert_eq in Hk'. injection Hk' as <-.
        eexists _, _. split; [done|]. split; [done|].
        split; [apply lookup_snoc|done].
      * rewrite lookup_insert_ne in Hk' by done.
        destruct (Hst _ _ Hk') as (la & lg & -> & Hla & Hlk & Hnm).
        exists la, lg. split_and!; try done. by apply lookup_app_l_Some.
  - intros la lg Hla Hlk.
    destruct (decide (la < length (loggers w))%nat) as [Hlt|Hge].
    + rewrite lookup_app_l in Hlk by done.
      destruct (Hlg _ _ Hla Hlk) as (Hf & Hp & Hg & n' & v & Hmv & Hfm).
      split_and!; try done. exists n', v. split; [done|]. by apply lookup_app_l_Some.
    + assert (la = length (loggers w)) as ->.
      { apply lookup_lt_Some in Hlk. rewrite length_app in Hlk. simpl in Hlk. lia. }
      rewrite lookup_snoc in Hlk. injection Hlk as <-. simpl.
      assert (F0 + (length (loggers w) - L0) = length (fieldmaps w))%nat as -> by lia.
      split_and!; try done. exists n, v'. split; [done|]. apply lookup_snoc.
Qed.

Lemma modules_built_loop F0 L0 context ctx cv cp ra keys : ∀ done w w',
  modules_built F0 L0 context ctx cv cp ra done w →
  for_range keys (NewRegistry_module (Some cp) (Some ra) context) w = (Ok tt, w') →
  modules_built F0 L0 context ctx cv cp ra (done ++ keys) w'.
Proof.
  induction keys as [|k keys IH]; intros done w w' Hinv Hrun; simpl in Hrun.
  - injection Hrun as <-. by rewrite app_nil_r.
  - apply bind_inv in Hrun as ([] & w1 & Hk & Hrest).
    rewrite (assoc_L (++) done [k] keys : (done ++ k :: keys = (done ++ [k]) ++ keys)%list).
    eapply IH; [|done]. by eapply modules_built_step.
Qed.

(** The loop returns when every key it meets has a view. *)
Lemma modules_loop_returns F0 L0 context ctx cv cp ra keys : ∀ done w,
  modules_built F0 L0 context ctx cv cp ra done w →
  (∀ n k, (n ≤ length done + length keys)%nat → k ∈ keys →
          is_Some (module_view (filled n cv) k)) →
  ∃ w', for_range keys (NewRegistry_module (Some cp) (Some ra) context) w = (Ok tt, w').
Proof.
  induction keys as [|k keys IH]; intros done w Hinv Hviews; simpl.
  - by exists w.
  - pose proof Hinv as ((n & Hn & Hc) & Hctx & _ & _ & _ & (st & Hr & _) & _).
    destruct (Hviews n k) as [v' Hv]; [lia|apply list_elem_of_here|].
    pose proof (NewRegistry_module_run w cp _ ra _ context ctx k v' Hc Hr Hctx Hv) as Hk.
    destruct (IH (done ++ [k])%list _ (modules_built_step _ _ _ _ _ _ _ _ _ _ _ Hinv Hk))
      as [w' Hw'].
    + intros n' k' Hn' Hk'. apply Hviews; [|by apply list_elem_of_further].
      rewrite length_app in Hn'. simpl in *. lia.
    + exists w'. by rewrite (bind_Ok _ _ _ _ _ Hk).
Qed.

Lemma views_exist_spec cv n k :
  views_exist cv = true →
  (n ≤ length (AllKeys cv))%nat → k ∈ AllKeys cv →
  is_Some (module_view (filled n cv) k).
Proof.
  unfold views_exist. intros H Hn Hk.
  rewrite forallb_forall in H. specialize (H n).
  rewrite forallb_forall in H.
  eapply bool_decide_eq_true_1, H.
  - apply in_seq. lia.
  - by apply list_elem_of_In.
Qed.

(** The first four statements of [NewRegistry]: narrowing to the
    [logging] section, reading the keys, allocating the registry. *)
Lemma NewRegistry_prelude {B} (K : ptr → list string → ptr → M V B) w cfg cv :
  logging_view w cfg = Some cv →
  ∃ cp vs,
    vs !! cp = Some cv
    ∧ vipers w `prefix_of` vs
    ∧ (inlog ← viper_InConfig cfg "logging";
       c ← (if inlog then viper_Sub cfg "logging" else ret cfg);
       keys ← viper_AllKeys c;
       reg ← new_registry (mkRegistry c ∅);
       K c keys reg) w
      = K (Some cp) (AllKeys cv) (Some (length (registries w)))
          (mkWorld (RootName w) vs (fieldmaps w) (loggers w)
             (registries w ++ [mkRegistry (Some cp) ∅])%list (configured w)).
Proof.
  unfold logging_view. intros Hv.
  destruct cfg as [ca|]; [|done].
  destruct (vipers w !! ca) as [c0|] eqn:Hc0; [|done].
  destruct (InConfig c0 "logging") eqn:Hin.
  - exists (length (vipers w)), (vipers w ++ [cv])%list.
    split; [apply lookup_snoc|]. split; [by apply prefix_app_r|].
    run_with ltac:(by apply viper_InConfig_run). rewrite Hin.
    run_with ltac:(erewrite viper_Sub_run by exact Hc0; rewrite Hv; reflexivity).
    run_with ltac:(apply viper_AllKeys_run; simpl; apply lookup_snoc).
    by run_prim.
  - injection Hv as ->.
    exists ca, (vipers w). split; [done|]. split; [done|].
    run_with ltac:(by apply viper_InConfig_run). rewrite Hin, bind_ret_run.
    run_with ltac:(by apply viper_AllKeys_run).
    by run_prim.
Qed.

(** With no key, [NewRegistry] makes the one logger named [RootName]. *)
Lemma NewRegistry_no_keys w cfg context cv ctx :
  logging_view w cfg = Some cv →
  AllKeys cv = [] →
  context_fields w context = Some ctx →
  ∃ cp vs,
    vs !! cp = Some cv
    ∧ NewRegistry cfg context w =
        (Ok (Some (length (registries w))),
         mkWorld (RootName w) vs
           (fieldmaps w ++ [<["module" := IString (RootName w)]> ctx])%list
           (loggers w ++
              [mkLogger (RootName w) (Some (length (fieldmaps w))) (Some cp) None
                 (Some (length (registries w)))])%list
           (registries w ++
              [mkRegistry (Some cp) {[RootName w := Some (length (loggers w))]}])%list
           (configured w)).
Proof.
  intros Hv Hk Hctx. unfold NewRegistry.
  lazymatch goal with
  | |- context [bind (viper_InConfig cfg "logging")
                  (λ inlog, bind (@?C inlog)
                     (λ c, bind (viper_AllKeys c)
                        (λ keys, bind (new_registry (mkRegistry c ∅))
                           (λ reg, @?K c keys reg))))] =>
      destruct (NewRegistry_prelude K w cfg cv Hv) as (cp & vs & Hcp & _ & Heq)
  end.
  simpl in Heq. rewrite Heq. clear Heq.
  exists cp, vs. split; [done|].
  rewrite Hk. simpl.
  rewrite bind_ret_run.
  run_prim.
  run_with ltac:(apply copy_context_run; simpl;
                 [apply lookup_snoc | by apply context_fields_snoc]).
  simpl. rewrite insert_snoc.
  run_prim.
  run_with ltac:(apply fields_set_run; simpl; apply lookup_snoc).
  simpl. rewrite insert_snoc.
  run_prim. run_prim. simpl.
  run_with ltac:(apply set_reg_run; simpl; apply lookup_snoc).
  simpl. rewrite insert_snoc.
  run_prim.
  run_with ltac:(apply store_set_run; simpl; apply lookup_snoc).
  simpl. rewrite insert_snoc. by rewrite insert_empty.
Qed.

(** With keys, [NewRegistry] returns once every key had its turn. *)
Lemma NewRegistry_with_keys w cfg context cv ctx :
  logging_view w cfg = Some cv →
  AllKeys cv ≠ [] →
  context_fields w context = Some ctx →
  views_exist cv = true →
  ∃ cp w',
    NewRegistry cfg context w = (Ok (Some (length (registries w))), w')
    ∧ modules_built (length (fieldmaps w)) (length (loggers w)) context ctx cv
        cp (length (registries w)) (AllKeys cv) w'.
Proof.
  intros Hv Hk Hctx Hviews. unfold NewRegistry.
  lazymatch goal with
  | |- context [bind (viper_InConfig cfg "logging")
                  (λ inlog, bind (@?C inlog)
                     (λ c, bind (viper_AllKeys c)
                        (λ keys, bind (new_registry (mkRegistry c ∅))
                           (λ reg, @?K c keys reg))))] =>
      destruct (NewRegistry_prelude K w cfg cv Hv) as (cp & vs & Hcp & _ & Heq)
  end.
  simpl in Heq.
  assert (Hlen : (length (AllKeys cv) =? 0)%nat = false).
  { by destruct (AllKeys cv). }
  set (w0 := mkWorld (RootName w) vs (fieldmaps w) (loggers w)
               (registries w ++ [mkRegistry (Some cp) ∅])%list (configured w)) in *.
  assert (Hinv : modules_built (length (fieldmaps w)) (length (loggers w)) context ctx cv
                   cp (length (registries w)) [] w0).
  { unfold modules_built; simpl. split_and!; try done.
    - exists 0%nat. done.
    - lia.
    - exists ∅. split; [apply lookup_snoc|]. split; [by rewrite dom_empty_L|].
      intros k' l Hl. by rewrite lookup_empty in Hl.
    - intros la lg Hla Hl. apply lookup_lt_Some in Hl. lia. }
  destruct (modules_loop_returns _ _ _ _ _ _ _ (AllKeys cv) [] w0 Hinv) as [w' Hw'].
  { intros n k Hn Hin. by apply views_exist_spec. }
  exists cp, w'. split.
  - setoid_rewrite Heq. rewrite Hlen.
    rewrite (bind_Ok _ _ _ _ _ Hw'). by rewrite bind_ret_run.
  - by apply (modules_built_loop _ _ _ _ _ _ _ (AllKeys cv) [] w0).
Qed.


(** C5: when the logging view has no keys, [NewRegistry] returns a
    registry whose store has the single key [RootName], bound to a logger
    that is backed by the whole logging view and whose context is the
    baseline context with [module] set to [RootName]. *)
Theorem NewRegistry_root_only w cfg context cv ctx :
  logging_view w cfg = Some cv →
  AllKeys cv = [] →
  context_fields w context = Some ctx →
  ∃ ra cp la fa w',
    NewRegistry cfg context w = (Ok (Some ra), w')
    ∧ RootName w' = RootName w
    ∧ registries w' !! ra = Some (mkRegistry (Some cp) {[RootName w := Some la]})
    ∧ vipers w' !! cp = Some cv
    ∧ loggers w' !! la
      = Some (mkLogger (RootName w) (Some fa) (Some cp) None (Some ra))
    ∧ fieldmaps w' !! fa = Some (<["module" := IString (RootName w)]> ctx).
Proof.
  intros Hv Hk Hctx.
  destruct (NewRegistry_no_keys w cfg context cv ctx Hv Hk Hctx) as (cp & vs & Hcp & Hrun).
  eexists _, cp, _, _, _. split; [exact Hrun|]. simpl.
  split_and!; try done; apply lookup_snoc.
Qed.

(** C10: when [RootName] is not its own lowercase form and the logging
    view has no keys, the root logger is stored under the literal
    [RootName], and [GetOK(RootName)] answers (nil, false) and [Root()]
    answers nil, because both look up the lowercased name. *)
Theorem Root_lost_when_RootName_not_lowercase w cfg context cv ctx :
  logging_view w cfg = Some cv →
  AllKeys cv = [] →
  context_fields w context = Some ctx →
  RootName w ≠ ToLower (RootName w) →
  ∃ ra la reg w',
    NewRegistry cfg context w = (Ok (Some ra), w')
    ∧ RootName w' = RootName w
    ∧ registries w' !! ra = Some reg
    ∧ store reg !! RootName w' = Some (Some la)
    ∧ GetOK (Some ra) (RootName w') w' = (Ok (None, false), w')
    ∧ Root (Some ra) w' = (Ok None, w').
Proof.
  intros Hv Hk Hctx Hlow.
  destruct (NewRegistry_no_keys w cfg context cv ctx Hv Hk Hctx) as (cp & vs & Hcp & Hrun).
  eexists _, _, _, _. split; [exact Hrun|]. simpl.
  split; [done|].
  split; [apply lookup_snoc|]. simpl.
  split; [apply lookup_singleton_eq|].
  split.
  - erewrite GetOK_run by (simpl; apply lookup_snoc). simpl.
    by rewrite lookup_singleton_ne.
  - erewrite Root_run by (simpl; apply lookup_snoc). simpl.
    by rewrite lookup_singleton_ne.
Qed.

End Construction.

(** ** The lowercase invariant *)

Section Lowercase.
Context {V : Type} `{!ConfigView V, !LoggerImpl V}.
Implicit Types w : World V.

(** [Register] under an ASCII path keeps the store lowercase. *)
Lemma Register_lowercase w a reg path l :
  registries w !! a = Some reg →
  isASCII path = true →
  lowercase_store reg →
  ∃ reg', registries (Register (Some a) path l w).2 !! a = Some reg'
          ∧ lowercase_store reg'.
Proof.
  intros Hr Hasc Hlow. rewrite (Register_run _ _ _ path l Hr). simpl.
  eexists. split; [apply list_lookup_insert_eq; by eapply lookup_lt_Some|].
  intros k. simpl. destruct (decide (ToLower path = k)) as [<-|Hne].
  - intros _. split; [by apply isASCII_ToLower|apply ToLower_idem].
  - rewrite lookup_insert_ne by done. apply Hlow.
Qed.

(** [NewRegistry] makes a lowercase store when the view's keys are lowercase
    (viper lowercases the keys it lists) and [RootName] is: the root
    logger's key is the one key the code itself does not lowercase. *)
Lemma NewRegistry_lowercase w cfg context cv ctx :
  logging_view w cfg = Some cv →
  context_fields w context = Some ctx →
  views_exist cv = true →
  (∀ k, k ∈ AllKeys cv → isASCII k = true ∧ ToLower k = k) →
  isASCII (RootName w) = true →
  ToLower (RootName w) = RootName w →
  ∃ ra w' reg,
    NewRegistry cfg context w = (Ok (Some ra), w')
    ∧ registries w' !! ra = Some reg
    ∧ lowercase_store reg.
Proof.
  intros Hv Hctx Hviews Hkeys Hasc Hroot.
  destruct (decide (AllKeys cv = [])) as [Hk|Hk].
  - destruct (NewRegistry_no_keys w cfg context cv ctx Hv Hk Hctx) as (cp & vs & Hcp & Hrun).
    eexists _, _, _. split; [exact Hrun|]. simpl. split; [apply lookup_snoc|].
    intros k. simpl. destruct (decide (RootName w = k)) as [<-|Hne]; [done|].
    rewrite lookup_singleton_ne by done. by intros [? [=]].
  - destruct (NewRegistry_with_keys w cfg context cv ctx Hv Hk Hctx Hviews)
      as (cp & w' & Hrun & _ & _ & _ & _ & _ & (st & Hr & Hdom & _) & _).
    eexists _, w', _. split; [exact Hrun|]. split; [exact Hr|].
    intros k Hin. simpl in Hin. apply Hkeys.
    apply elem_of_dom in Hin. rewrite Hdom in Hin. by apply elem_of_list_to_set in Hin.
Qed.
End Lowercase.

(** ** Reload *)

(** Frame goals: go through the binds and loops, case on what is matched. *)
Ltac keeps_step :=
  first
    [ solve [auto with keeps]
    | apply keeps_bind; [|intros ?]
    | apply keeps_for_range; intros ?
    | apply keeps_for_fold; intros ? ?
    | apply keeps_for_return; intros ?
    | match goal with
      | |- keeps _ (match ?x with _ => _ end) => destruct x
      end
    | (intros ?; simpl; by rewrite ?length_insert) ].

Section Reloading.
Context {V : Type} `{!ConfigView V, !LoggerImpl V}.
Implicit Types w : World V.

Lemma findLongestMatchingPath_keeps {X} (π : World V → X) path cfg :
  (∀ s, keeps π (new_viper s)) → keeps π (findLongestMatchingPath path cfg).
Proof.
  intros Hnew.
  unfold findLongestMatchingPath, viper_IsSet, viper_Sub.
  repeat first [apply Hnew | keeps_step].
Qed.

Lemma Reload_keeps {X} (π : World V → X) r :
  (∀ s, keeps π (new_viper s)) →
  (∀ a o, keeps π (put_logger a o)) →
  (∀ a c, keeps π (log_configure a c)) →
  keeps π (Reload r).
Proof.
  intros Hnew Hput Hlog. unfold Reload, Logger_Configure.
  repeat first [apply findLongestMatchingPath_keeps | apply Hnew | apply Hput
               | apply Hlog | keeps_step].
Qed.

(** [findLongestMatchingPath] always returns when the view is there; it may
    add a view to the heap and changes nothing else. *)
Lemma resolve_loop_returns w cp c parts pl (js : list nat) :
  vipers w !! cp = Some c →
  ∃ r w',
    for_return js (λ i,
        let mod_ := pl - i in
        let k := Join (take mod_ parts) "." in
        isset ← viper_IsSet (Some cp) k;
        if isset then s ← viper_Sub (Some cp) k; ret (Some s) else ret None) w
    = (Ok r, w')
    ∧ vipers w `prefix_of` vipers w'.
Proof.
  intros Hc. induction js as [|j js IH]; simpl.
  - by exists None, w.
  - destruct (IsSet c (Join (take (pl - j) parts) ".")) eqn:Hset.
    + run_with ltac:(by apply viper_IsSet_run). rewrite Hset.
      rewrite bind_assoc_run. unfold viper_Sub.
      run_with ltac:(by apply deref_Some).
      destruct (Sub c _) as [s|].
      * eexists _, _. split; [reflexivity|]. simpl. by apply prefix_app_r.
      * by exists (Some None), w.
    + destruct IH as (r & w' & Hrun & Hpre). exists r, w'. split; [|done].
      run_with ltac:(by apply viper_IsSet_run). by rewrite Hset, bind_ret_run.
Qed.

Lemma findLongestMatchingPath_returns w cp c path :
  vipers w !! cp = Some c →
  ∃ p w', findLongestMatchingPath path (Some cp) w = (Ok p, w')
          ∧ vipers w `prefix_of` vipers w'.
Proof.
  intros Hc. unfold findLongestMatchingPath.
  destruct (resolve_loop_returns w cp c (Split path ".") (length (Split path "."))
              (seq 0 (length (Split path "."))) Hc) as (r & w' & Hrun & Hpre).
  exists (default None r), w'. split; [|done].
  by rewrite (bind_Ok _ _ _ _ _ Hrun).
Qed.

Lemma Reload_resolve_keeps {X} (π : World V → X) a keys (configs : gmap string ptr) :
  (∀ s, keeps π (new_viper s)) →
  keeps π (for_fold keys configs (λ configs key,
             reg ← deref registries (Some a);
             cfg ← findLongestMatchingPath key (config reg);
             ret (<[key := cfg]> configs))).
Proof.
  intros Hnew.
  repeat first [apply findLongestMatchingPath_keeps | apply Hnew | keeps_step].
Qed.

(** The first loop of [Reload]: every key gets an entry in [configs], and
    the entry of a key with no set prefix is nil. *)
Lemma Reload_resolve_run a reg cp c keys : ∀ (configs : gmap string ptr) w,
  registries w !! a = Some reg → config reg = Some cp → vipers w !! cp = Some c →
  ∃ configs' w',
    for_fold keys configs (λ configs key,
        reg ← deref registries (Some a);
        cfg ← findLongestMatchingPath key (config reg);
        ret (<[key := cfg]> configs)) w
    = (Ok configs', w')
    ∧ (∀ k, k ∈ keys → is_Some (configs' !! k))
    ∧ (∀ k, k ∉ keys → configs' !! k = configs !! k)
    ∧ (∀ k, k ∈ keys →
         (∀ m : nat, (1 ≤ m ≤ length (Split k "."))%nat →
                     IsSet c (path_prefix k m) = false) →
         configs' !! k = Some None).
Proof.
  induction keys as [|key keys IH]; intros configs w Hr Hcfg Hc; simpl.
  - exists configs, w. split; [done|]. split; [by intros ? ?%elem_of_nil|].
    split; [done|by intros ? ?%elem_of_nil].
  - destruct (findLongestMatchingPath_returns w cp c key Hc) as (p & w1 & Hrun & Hpre).
    assert (Hreg1 : registries w1 = registries w).
    { pose proof (findLongestMatchingPath_keeps registries key (Some cp)
                    (λ s w, eq_refl) w) as H. by rewrite Hrun in H. }
    destruct (IH (<[key := p]> configs) w1) as (configs' & w' & Hfold & Hall & Hpres & Hnil).
    { by rewrite Hreg1. } { done. } { by eapply prefix_lookup_Some. }
    exists configs', w'. split.
    { rewrite bind_assoc_run. run_with ltac:(by apply deref_Some).
      rewrite Hcfg, bind_assoc_run. rewrite (bind_Ok _ _ _ _ _ Hrun).
      by rewrite bind_ret_run. }
    assert (Hhead : key ∉ keys → configs' !! key = Some p).
    { intros Hnin. by rewrite (Hpres _ Hnin), lookup_insert_eq. }
    split; [|split].
    + intros k Hk. destruct (decide (k ∈ keys)) as [Hin|Hnin]; [by apply Hall|].
      apply elem_of_cons in Hk as [->|Hk]; [|done]. rewrite Hhead by done. by eexists.
    + intros k Hk. apply not_elem_of_cons in Hk as [Hne Hk].
      rewrite (Hpres _ Hk). by apply lookup_insert_ne.
    + intros k Hk Hno.
      destruct (decide (k ∈ keys)) as [Hin|Hnin]; [by apply Hnil|].
      apply elem_of_cons in Hk as [->|Hk]; [|done].
      rewrite (findLongestMatchingPath_miss w cp c key Hc Hno) in Hrun.
      injection Hrun as <- <-. by apply Hhead.
Qed.

(** The second loop of [Reload]: [Configure] is called on the logger of
    every key that has an entry in [configs], with that entry. *)
Lemma Reload_apply_run a reg (configs : gmap string ptr) keys : ∀ w,
  registries w !! a = Some reg →
  (∀ k, k ∈ keys → is_Some (configs !! k)) →
  (∀ k, k ∈ keys → ∃ la, store reg !! k = Some (Some la)
                          ∧ (la < length (loggers w))%nat) →
  ∃ w' calls,
    for_range keys (λ k,
        reg ← deref registries (Some a);
        let logger := default None (store reg !! k) in
        match configs !! k with
        | Some cfg => Logger_Configure logger cfg
        | None => ret tt
        end) w
    = (Ok tt, w')
    ∧ configured w' = (configured w ++ calls)%list
    ∧ Forall2 (λ k call, store reg !! k = Some (Some call.1)
                         ∧ configs !! k = Some call.2) keys calls.
Proof.
  induction keys as [|k keys IH]; intros w Hr Hcf Hlg; simpl.
  - exists w, []. by rewrite app_nil_r.
  - destruct (Hcf k) as [cfg Hk]; [apply list_elem_of_here|].
    destruct (Hlg k) as (la & Hla & Hlt); [apply list_elem_of_here|].
    destruct (lookup_lt_is_Some_2 _ _ Hlt) as [o Ho].
    pose proof (Logger_Configure_run w la o cfg Ho) as Hrun.
    destruct (IH (Logger_Configure (Some la) cfg w).2) as (w' & calls & Hrest & Hcalls & Hall).
    { by rewrite Hrun. }
    { intros k' Hk'. apply Hcf. by apply list_elem_of_further. }
    { intros k' Hk'. destruct (Hlg k') as (la' & ? & ?); [by apply list_elem_of_further|].
      exists la'. split; [done|]. rewrite Hrun. simpl. by rewrite length_insert. }
    exists w', ((la, cfg) :: calls). split; [|split].
    + rewrite bind_assoc_run. run_with ltac:(by apply deref_Some).
      rewrite Hk, Hla. simpl. rewrite (bind_Ok _ _ _ _ _ Hrun).
      by rewrite Hrun in Hrest.
    + rewrite Hcalls, Hrun. simpl. by rewrite <- (assoc_L (++)).
    + by constructor.
Qed.

(** Every [Reload] configures every logger: on a registry with a view and
    with a logger under every key, [Reload] returns after one [Configure]
    call per key, in the order of the sorted keys; the logger of a key none
    of whose prefixes is set is configured with a nil view. *)
Lemma Reload_configures_every_key w a reg cp c :
  registries w !! a = Some reg → config reg = Some cp → vipers w !! cp = Some c →
  (∀ k l, store reg !! k = Some l → ∃ la, l = Some la ∧ (la < length (loggers w))%nat) →
  ∃ w' calls,
    Reload (Some a) w = (Ok tt, w')
    ∧ configured w' = (configured w ++ calls)%list
    ∧ Forall2 (λ k call, store reg !! k = Some (Some call.1))
              (sort_Strings (map_to_list (store reg)).*1) calls
    ∧ (∀ k la, store reg !! k = Some (Some la) →
         (∀ m : nat, (1 ≤ m ≤ length (Split k "."))%nat →
                     IsSet c (path_prefix k m) = false) →
         (la, None) ∈ calls).
Proof.
  intros Hr Hcfg Hc Hlg. unfold Reload.
  run_with ltac:(by apply deref_Some).
  set (keys := sort_Strings (map_to_list (store reg)).*1).
  assert (Hkeys : ∀ k, k ∈ keys ↔ is_Some (store reg !! k)).
  { intros k. unfold keys, sort_Strings. rewrite merge_sort_Permutation.
    rewrite list_elem_of_fmap. split.
    - intros ([k' l] & -> & Hin). apply elem_of_map_to_list in Hin. by eexists.
    - intros [l Hl]. exists (k, l). split; [done|]. by apply elem_of_map_to_list. }
  destruct (Reload_resolve_run a reg cp c keys ∅ w Hr Hcfg Hc)
    as (configs & w1 & Hres & Hall & _ & Hnil).
  assert (Hframe : registries w1 = registries w ∧ loggers w1 = loggers w
                   ∧ configured w1 = configured w).
  { split_and!.
    - pose proof (Reload_resolve_keeps registries a keys ∅ (λ s w, eq_refl) w) as H.
      by rewrite Hres in H.
    - pose proof (Reload_resolve_keeps loggers a keys ∅ (λ s w, eq_refl) w) as H.
      by rewrite Hres in H.
    - pose proof (Reload_resolve_keeps configured a keys ∅ (λ s w, eq_refl) w) as H.
      by rewrite Hres in H. }
  destruct Hframe as (Hreg1 & Hlog1 & Hcon1).
  destruct (Reload_apply_run a reg configs keys w1) as (w' & calls & Happ & Hcalls & Hf2).
  { by rewrite Hreg1. } { done. }
  { intros k Hk. apply Hkeys in Hk as [l Hl].
    destruct (Hlg _ _ Hl) as (la & -> & Hlt). exists la. by rewrite Hlog1. }
  exists w', calls. split; [|split; [|split]].
  - by rewrite (bind_Ok _ _ _ _ _ Hres).
  - by rewrite Hcalls, Hcon1.
  - eapply Forall2_impl; [exact Hf2|]. by intros ? ? [? _].
  - intros k la Hk Hno.
    assert (Hin : k ∈ keys) by (apply Hkeys; by eexists).
    specialize (Hnil k Hin Hno).
    apply list_elem_of_lookup in Hin as [i Hi].
    destruct (Forall2_lookup_l _ _ _ _ _ Hf2 Hi) as ([la' p] & Hci & Hs & Hp).
    simpl in *. simplify_eq. by eapply list_elem_of_lookup_2.
Qed.

(** C6: [Reload] leaves every registry as it was, so the store has the
    same keys bound to the same loggers after it as before; it makes no
    logger either, it only configures those at hand. *)
Theorem Reload_keeps_store (r : ptr) w :
  registries (Reload r w).2 = registries w
  ∧ length (loggers (Reload r w).2) = length (loggers w).
Proof.
  split.
  - by apply (Reload_keeps registries).
  - apply (Reload_keeps (λ w, length (loggers w))); intros; intros ?; simpl;
      by rewrite ?length_insert.
Qed.
End Reloading.

(** ** The code on concrete configurations *)

(** C1, where the code departs from the claim: the registry built from an
    empty configuration holds the one logger ["root"]; no prefix of ["root"]
    is set in the view, and yet [Reload] calls that logger's [Configure],
    with a nil view, which here unbinds the logger from its view. *)
Theorem Reload_configures_unmatched_key :
  let w := (NewRegistry (Some 0) None (w_empty "root")).2 in
  let w' := (Reload (Some 0) w).2 in
  (map_to_list ∘ store <$> registries w) = [[("root", Some 0)]]
  ∧ Split "root" "." = ["root"]
  ∧ IsSet ([] : TreeView) (path_prefix "root" 1) = false
  ∧ configured w = []
  ∧ l_config <$> loggers w = [Some 0]
  ∧ (Reload (Some 0) w).1 = Ok tt
  ∧ configured w' = [(0, None)]
  ∧ l_config <$> loggers w' = [None].
Proof. vm_compute. by repeat split. Qed.

(** C4, where the code departs from the claim: with [RootName] set to
    ["Root"] and an empty configuration, [NewRegistry] stores the root logger
    under the key ["Root"], which is not lowercase, and neither [GetOK] nor
    [Root] finds it. *)
Theorem NewRegistry_stores_RootName_verbatim :
  let res := NewRegistry (Some 0) None (w_empty "Root") in
  res.1 = Ok (Some 0)
  ∧ (map_to_list ∘ store <$> registries res.2) = [[("Root", Some 0)]]
  ∧ ToLower "Root" = "root"
  ∧ (GetOK (Some 0) "Root" res.2).1 = Ok (None, false)
  ∧ (Root (Some 0) res.2).1 = Ok None.
Proof. vm_compute. by repeat split. Qed.



(** ** The theorems at concrete inputs *)

Lemma findLongestMatchingPath_longest_prefix_witness :
  findLongestMatchingPath "a.b.c.d" (Some 0) w_sections
  = viper_Sub (Some 0) "a.b.c" w_sections
  ∧ findLongestMatchingPath "a.b" (Some 0) w_sections
    = viper_Sub (Some 0) "a" w_sections.
Proof.
  destruct (findLongestMatchingPath_longest_prefix w_sections 0 cfg_sections eq_refl)
    as (_ & _ & _ & H).
  destruct (H eq_refl eq_refl eq_refl) as [H1 H2].
  split; [apply H1; reflexivity | exact H2].
Defined.

Lemma Register_GetOK_roundtrip_witness :
  ((Register (Some 0) "X" (Some 7);; GetOK (Some 0) "x") w_registry).1
  = Ok (Some 7, true)
  ∧ ((Register (Some 0) "X" (Some 7);; Register (Some 0) "x" (Some 8);;
      GetOK (Some 0) "x") w_registry).1
    = Ok (Some 8, true).
Proof.
  apply (Register_GetOK_roundtrip w_registry 0 (mkRegistry None ∅) "X" "x" "x");
    reflexivity.
Defined.


Lemma NewRegistry_root_only_witness :
  ∃ ra cp la fa w',
    NewRegistry (Some 0) None (w_empty "root") = (Ok (Some ra), w')
    ∧ registries w' !! ra = Some (mkRegistry (Some cp) {["root" := Some la]})
    ∧ loggers w' !! la = Some (mkLogger "root" (Some fa) (Some cp) None (Some ra))
    ∧ fieldmaps w' !! fa = Some (<["module" := IString "root"]> ∅).
Proof.
  assert (Hl : logging_view (w_empty "root") (Some 0) = Some []) by reflexivity.
  assert (Hk : AllKeys ([] : TreeView) = []) by reflexivity.
  assert (Hc : context_fields (w_empty "root") None = Some ∅) by reflexivity.
  destruct (NewRegistry_root_only (w_empty "root") (Some 0) None [] ∅ Hl Hk Hc)
    as (ra & cp & la & fa & w' & H1 & _ & H2 & _ & H3 & H4).
  exists ra, cp, la, fa, w'.
  split; [exact H1|split; [exact H2|split; [exact H3|exact H4]]].
Defined.

Lemma Root_lost_when_RootName_not_lowercase_witness :
  ∃ ra w',
    NewRegistry (Some 0) None (w_empty "Root") = (Ok (Some ra), w')
    ∧ RootName w' = "Root"
    ∧ GetOK (Some ra) (RootName w') w' = (Ok (None, false), w')
    ∧ Root (Some ra) w' = (Ok None, w').
Proof.
  assert (Hlow : RootName (w_empty "Root") ≠ ToLower (RootName (w_empty "Root")))
    by discriminate.
  assert (Hl : logging_view (w_empty "Root") (Some 0) = Some []) by reflexivity.
  assert (Hk : AllKeys ([] : TreeView) = []) by reflexivity.
  assert (Hc : context_fields (w_empty "Root") None = Some ∅) by reflexivity.
  destruct (Root_lost_when_RootName_not_lowercase (w_empty "Root") (Some 0) None [] ∅
              Hl Hk Hc Hlow)
    as (ra & la & reg & w' & H1 & Hrn & _ & _ & H2 & H3).
  exists ra, w'.
  split; [exact H1|split; [exact Hrn|split; [exact H2|exact H3]]].
Defined.


(** * Further properties of the code *)

(** ** Lookup and registration *)

Section LookupMore.
Context {V : Type} `{!ConfigView V, !LoggerImpl V}.
Implicit Types w : World V.

(** X1: [Register(path, l)], for an ASCII [path], returns and changes one
    store entry of one registry: a lookup of an ASCII name whose lowercase
    form differs from that of [path] answers as before, the registry keeps
    its view, and no other registry, logger, view, field map, [RootName] or
    [Configure] record changes. *)
Theorem Register_changes_one_entry w a reg path (l : ptr) :
  registries w !! a = Some reg →
  isASCII path = true →
  ∃ w' reg',
    Register (Some a) path l w = (Ok tt, w')
    ∧ registries w' !! a = Some reg'
    ∧ config reg' = config reg
    ∧ (∀ name, isASCII name = true → ToLower name ≠ ToLower path →
         (GetOK (Some a) name w').1 = (GetOK (Some a) name w).1)
    ∧ (∀ b, b ≠ a → registries w' !! b = registries w !! b)
    ∧ loggers w' = loggers w ∧ vipers w' = vipers w ∧ fieldmaps w' = fieldmaps w
    ∧ configured w' = configured w ∧ RootName w' = RootName w.
Proof.
  intros Hr _. rewrite (Register_run _ _ _ path l Hr).
  assert (Ha : (a < length (registries w))%nat) by by eapply lookup_lt_Some.
  eexists _, _. split; [reflexivity|]. simpl.
  split; [by apply list_lookup_insert_eq|]. simpl.
  split_and!; try done.
  - intros name _ Hne.
    erewrite GetOK_run by (simpl; by apply list_lookup_insert_eq).
    rewrite (GetOK_run _ _ _ _ Hr). simpl.
    by rewrite lookup_insert_ne.
  - intros b Hb. by apply list_lookup_insert_ne.
Qed.

(** X2: lookup and registration do not see the case of ASCII letters: for
    two names equal up to case, [GetOK] and [Get] answer the same in every
    state, and [Register] under either name leads to the same state. *)
Theorem lookup_ignores_case (r : ptr) name name' (l : ptr) w :
  EqualFoldASCII name name' = true →
  GetOK r name w = GetOK r name' w
  ∧ Get r name w = Get r name' w
  ∧ Register r name l w = Register r name' l w.
Proof.
  intros Hf%ToLower_fold. unfold Get, GetOK, Register. by rewrite Hf.
Qed.

(** X3: [Get] cannot tell a name registered with a nil logger from a name
    that was never registered, [GetOK] can: for ASCII names, after
    [Register(path, nil)], [GetOK(path)] answers (nil, true) and [Get(path)]
    nil, and for a name missing from the store [GetOK] answers (nil, false)
    and [Get] nil again. *)
Theorem Get_hides_nil_logger w a reg path missing :
  registries w !! a = Some reg →
  isASCII path = true →
  isASCII missing = true →
  store reg !! ToLower missing = None →
  ToLower missing ≠ ToLower path →
  ∃ w',
    Register (Some a) path None w = (Ok tt, w')
    ∧ GetOK (Some a) path w' = (Ok (None, true), w')
    ∧ Get (Some a) path w' = (Ok None, w')
    ∧ GetOK (Some a) missing w' = (Ok (None, false), w')
    ∧ Get (Some a) missing w' = (Ok None, w').
Proof.
  intros Hr _ _ Hmiss Hne. rewrite (Register_run _ _ _ path None Hr).
  assert (Ha : (a < length (registries w))%nat) by by eapply lookup_lt_Some.
  eexists. split; [reflexivity|].
  split_and!.
  - erewrite GetOK_run by (simpl; by apply list_lookup_insert_eq).
    simpl. by rewrite lookup_insert_eq.
  - erewrite Get_run by (simpl; by apply list_lookup_insert_eq).
    simpl. by rewrite lookup_insert_eq.
  - erewrite GetOK_run by (simpl; by apply list_lookup_insert_eq).
    simpl. by rewrite lookup_insert_ne, Hmiss.
  - erewrite Get_run by (simpl; by apply list_lookup_insert_eq).
    simpl. by rewrite lookup_insert_ne, Hmiss.
Qed.
End LookupMore.

Lemma Register_changes_one_entry_witness :
  ∃ w' reg',
    Register (Some 0) "Srv" (Some 7) w_loggers = (Ok tt, w')
    ∧ registries w' !! 0 = Some reg'
    ∧ (GetOK (Some 0) "A.B" w').1 = (GetOK (Some 0) "A.B" w_loggers).1.
Proof.
  assert (Hr : registries w_loggers !! 0
               = Some (mkRegistry (Some 0) {["a.b" := Some 0; "x" := Some 1]}))
    by reflexivity.
  assert (Hp : isASCII "Srv" = true) by reflexivity.
  destruct (Register_changes_one_entry w_loggers 0 _ "Srv" (Some 7) Hr Hp)
    as (w' & reg' & H1 & H2 & _ & H3 & _).
  exists w', reg'. split; [exact H1|split; [exact H2|]].
  apply H3; [reflexivity|discriminate].
Defined.

Lemma lookup_ignores_case_witness :
  GetOK (Some 0) "A.b" w_loggers = GetOK (Some 0) "a.B" w_loggers.
Proof.
  assert (Hf : EqualFoldASCII "A.b" "a.B" = true) by reflexivity.
  exact (proj1 (lookup_ignores_case (Some 0) "A.b" "a.B" None w_loggers Hf)).
Defined.

Lemma Get_hides_nil_logger_witness :
  ∃ w',
    Register (Some 0) "y" None w_loggers = (Ok tt, w')
    ∧ Get (Some 0) "y" w' = (Ok None, w')
    ∧ Get (Some 0) "z" w' = (Ok None, w').
Proof.
  assert (Hr : registries w_loggers !! 0
               = Some (mkRegistry (Some 0) {["a.b" := Some 0; "x" := Some 1]}))
    by reflexivity.
  assert (Hm : store (mkRegistry (Some 0) {["a.b" := Some 0; "x" := Some 1]})
               !! ToLower "z" = None) by (vm_compute; reflexivity).
  assert (Hne : ToLower "z" ≠ ToLower "y") by discriminate.
  destruct (Get_hides_nil_logger w_loggers 0 _ "y" "z" Hr eq_refl eq_refl Hm Hne)
    as (w' & H1 & _ & H2 & _ & H3).
  exists w'. split; [exact H1|split; [exact H2|exact H3]].
Defined.

(** ** The root logger *)

Section RootMore.
Context {V : Type} `{!ConfigView V, !LoggerImpl V}.
Implicit Types w : World V.

Lemma NewRegistry_keeps_RootName cfg context : keeps RootName (NewRegistry cfg context).
Proof.
  unfold NewRegistry, NewRegistry_module, copy_context, fields_entries, viper_InConfig,
    viper_Sub, viper_AllKeys, viper_IsSet, viper_GetString, call_addLoggingDefaults,
    fields_set, newNamedLogger, set_reg, store_set, get_RootName.
  repeat keeps_step.
Qed.

(** X4: when [RootName] is an ASCII string in lowercase and the logging
    view has no keys, [Root()] returns the logger [NewRegistry] made, named
    [RootName], and [GetOK(RootName)] finds the same logger. *)
Theorem Root_finds_root_logger w cfg context cv ctx :
  logging_view w cfg = Some cv →
  AllKeys cv = [] →
  context_fields w context = Some ctx →
  isASCII (RootName w) = true →
  ToLower (RootName w) = RootName w →
  ∃ ra la lg w',
    NewRegistry cfg context w = (Ok (Some ra), w')
    ∧ Root (Some ra) w' = (Ok (Some la), w')
    ∧ GetOK (Some ra) (RootName w') w' = (Ok (Some la, true), w')
    ∧ loggers w' !! la = Some lg
    ∧ l_name lg = RootName w.
Proof.
  intros Hv Hk Hctx _ Hlow.
  destruct (NewRegistry_no_keys w cfg context cv ctx Hv Hk Hctx) as (cp & vs & Hcp & Hrun).
  eexists _, _, _, _. split; [exact Hrun|].
  split_and!.
  - erewrite Root_run by (simpl; apply lookup_snoc). simpl.
    by rewrite Hlow, lookup_singleton_eq.
  - erewrite GetOK_run by (simpl; apply lookup_snoc). simpl.
    by rewrite Hlow, lookup_singleton_eq.
  - simpl. apply lookup_snoc.
  - done.
Qed.

(** X5: [init] sets [RootName] to ["root"] whatever it was, so a registry
    built after it from a logging view without keys has the single key
    ["root"], and [Root()] returns its logger. *)
Theorem init_names_the_root_logger w cfg context cv ctx :
  logging_view w cfg = Some cv →
  AllKeys cv = [] →
  context_fields w context = Some ctx →
  ∃ ra la lg reg w',
    (init;; NewRegistry cfg context) w = (Ok (Some ra), w')
    ∧ RootName w' = "root"
    ∧ registries w' !! ra = Some reg
    ∧ store reg = {["root" := Some la]}
    ∧ Root (Some ra) w' = (Ok (Some la), w')
    ∧ loggers w' !! la = Some lg
    ∧ l_name lg = "root".
Proof.
  intros Hv Hk Hctx.
  set (w0 := mkWorld "root" (vipers w) (fieldmaps w) (loggers w) (registries w)
               (configured w)).
  assert (Hinit : init w = (Ok tt, w0)) by reflexivity.
  destruct (NewRegistry_no_keys w0 cfg context cv ctx) as (cp & vs & Hcp & Hrun);
    [by destruct cfg|done|by destruct context|].
  eexists _, _, _, _, _. split; [rewrite (bind_Ok _ _ _ _ _ Hinit); exact Hrun|]. simpl.
  split; [done|].
  split; [apply lookup_snoc|]. simpl.
  split; [done|].
  split.
  - erewrite Root_run by (simpl; apply lookup_snoc). simpl.
    by rewrite lookup_singleton_eq.
  - split; [apply lookup_snoc|done].
Qed.

(** X6: [Root()] reads [RootName] when it is called: for ASCII names, once
    [RootName] is set to a name with another lowercase form, [Root()]
    returns nil, while the root logger stays in the store under the name it
    was made with. *)
Theorem Root_follows_RootName w cfg context cv ctx new :
  logging_view w cfg = Some cv →
  AllKeys cv = [] →
  context_fields w context = Some ctx →
  isASCII (RootName w) = true →
  isASCII new = true →
  ToLower (RootName w) = RootName w →
  ToLower new ≠ RootName w →
  ∃ ra la w' w'',
    NewRegistry cfg context w = (Ok (Some ra), w')
    ∧ set_RootName new w' = (Ok tt, w'')
    ∧ Root (Some ra) w'' = (Ok None, w'')
    ∧ GetOK (Some ra) (RootName w) w'' = (Ok (Some la, true), w'').
Proof.
  intros Hv Hk Hctx _ _ Hlow Hnew.
  destruct (NewRegistry_no_keys w cfg context cv ctx Hv Hk Hctx) as (cp & vs & Hcp & Hrun).
  eexists _, _, _, _. split; [exact Hrun|]. split; [reflexivity|].
  split.
  - erewrite Root_run by (simpl; apply lookup_snoc). simpl.
    by rewrite lookup_singleton_ne.
  - erewrite GetOK_run by (simpl; apply lookup_snoc). simpl.
    by rewrite Hlow, lookup_singleton_eq.
Qed.

(** X7: when the logging view has keys, no root logger is made: for an
    ASCII [RootName], unless one of the keys is the lowercase form of
    [RootName], [Root()] returns nil and [GetOK(RootName)] answers
    (nil, false). *)
Theorem Root_nil_with_modules w cfg context cv ctx :
  logging_view w cfg = Some cv →
  context_fields w context = Some ctx →
  AllKeys cv ≠ [] →
  views_exist cv = true →
  isASCII (RootName w) = true →
  ToLower (RootName w) ∉ AllKeys cv →
  ∃ ra w',
    NewRegistry cfg context w = (Ok (Some ra), w')
    ∧ Root (Some ra) w' = (Ok None, w')
    ∧ GetOK (Some ra) (RootName w') w' = (Ok (None, false), w').
Proof.
  intros Hv Hctx Hne Hviews _ Hroot.
  destruct (NewRegistry_with_keys w cfg context cv ctx Hv Hne Hctx Hviews)
    as (cp & w' & Hrun & _ & _ & _ & _ & _ & (st & Hr & Hdom & _) & _).
  assert (Hrn : RootName w' = RootName w).
  { pose proof (NewRegistry_keeps_RootName cfg context w) as H. by rewrite Hrun in H. }
  assert (Hnone : st !! ToLower (RootName w) = None).
  { apply not_elem_of_dom. rewrite Hdom. by rewrite elem_of_list_to_set. }
  exists (length (registries w)), w'. split; [exact Hrun|]. split.
  - rewrite (Root_run _ _ _ Hr). simpl. by rewrite Hrn, Hnone.
  - rewrite (GetOK_run _ _ _ _ Hr). simpl. by rewrite Hrn, Hnone.
Qed.
End RootMore.

Lemma Root_finds_root_logger_witness :
  ∃ ra la w',
    NewRegistry (Some 0) None (w_empty "root") = (Ok (Some ra), w')
    ∧ Root (Some ra) w' = (Ok (Some la), w').
Proof.
  assert (Hl : logging_view (w_empty "root") (Some 0) = Some []) by reflexivity.
  assert (Hk : AllKeys ([] : TreeView) = []) by reflexivity.
  assert (Hc : context_fields (w_empty "root") None = Some ∅) by reflexivity.
  assert (Hlow : ToLower (RootName (w_empty "root")) = RootName (w_empty "root"))
    by reflexivity.
  assert (Hasc : isASCII (RootName (w_empty "root")) = true) by reflexivity.
  destruct (Root_finds_root_logger (w_empty "root") (Some 0) None [] ∅ Hl Hk Hc Hasc Hlow)
    as (ra & la & lg & w' & H1 & H2 & _).
  exists ra, la, w'. split; [exact H1|exact H2].
Defined.

Lemma init_names_the_root_logger_witness :
  ∃ ra la w',
    (init;; NewRegistry (Some 0) None) (w_empty "Main") = (Ok (Some ra), w')
    ∧ RootName w' = "root"
    ∧ Root (Some ra) w' = (Ok (Some la), w').
Proof.
  assert (Hl : logging_view (w_empty "Main") (Some 0) = Some []) by reflexivity.
  assert (Hk : AllKeys ([] : TreeView) = []) by reflexivity.
  assert (Hc : context_fields (w_empty "Main") None = Some ∅) by reflexivity.
  destruct (init_names_the_root_logger (w_empty "Main") (Some 0) None [] ∅ Hl Hk Hc)
    as (ra & la & lg & reg & w' & H1 & H2 & _ & _ & H3 & _).
  exists ra, la, w'. split; [exact H1|split; [exact H2|exact H3]].
Defined.

Lemma Root_follows_RootName_witness :
  ∃ ra la w' w'',
    NewRegistry (Some 0) None (w_empty "root") = (Ok (Some ra), w')
    ∧ set_RootName "main" w' = (Ok tt, w'')
    ∧ Root (Some ra) w'' = (Ok None, w'')
    ∧ GetOK (Some ra) "root" w'' = (Ok (Some la, true), w'').
Proof.
  assert (Hl : logging_view (w_empty "root") (Some 0) = Some []) by reflexivity.
  assert (Hk : AllKeys ([] : TreeView) = []) by reflexivity.
  assert (Hc : context_fields (w_empty "root") None = Some ∅) by reflexivity.
  assert (Hlow : ToLower (RootName (w_empty "root")) = RootName (w_empty "root"))
    by reflexivity.
  assert (Hnew : ToLower "main" ≠ RootName (w_empty "root")) by discriminate.
  assert (Ha1 : isASCII (RootName (w_empty "root")) = true) by reflexivity.
  assert (Ha2 : isASCII "main" = true) by reflexivity.
  destruct (Root_follows_RootName (w_empty "root") (Some 0) None [] ∅ "main"
              Hl Hk Hc Ha1 Ha2 Hlow Hnew)
    as (ra & la & w' & w'' & H1 & H2 & H3 & H4).
  exists ra, la, w', w''.
  split; [exact H1|split; [exact H2|split; [exact H3|exact H4]]].
Defined.

Lemma Root_nil_with_modules_witness :
  ∃ ra w',
    NewRegistry (Some 0) (Some 0) w_modules = (Ok (Some ra), w')
    ∧ Root (Some ra) w' = (Ok None, w').
Proof.
  assert (Hl : logging_view w_modules (Some 0) = Some cv_modules) by reflexivity.
  assert (Hc : context_fields w_modules (Some 0) = Some {["app" := IString "x"]})
    by reflexivity.
  assert (Hne : AllKeys cv_modules ≠ []) by discriminate.
  assert (Hv : views_exist cv_modules = true) by (vm_compute; reflexivity).
  assert (Hroot : ToLower (RootName w_modules) ∉ AllKeys cv_modules).
  { apply (bool_decide_unpack _). vm_compute. exact I. }
  assert (Hasc : isASCII (RootName w_modules) = true) by reflexivity.
  destruct (Root_nil_with_modules w_modules (Some 0) (Some 0) cv_modules
              {["app" := IString "x"]} Hl Hc Hne Hv Hasc Hroot)
    as (ra & w' & H1 & H2 & _).
  exists ra, w'. split; [exact H1|exact H2].
Defined.

(** ** Path resolution, further *)

Section ResolutionMore.
Context {V : Type} `{!ConfigView V, !LoggerImpl V}.
Implicit Types w : World V.

(** X8: [findLongestMatchingPath] does not fall back: when the key itself
    is set but [Sub] gives nil for it (its value is no section), the result
    is nil and nothing is allocated, whatever shorter prefixes are set. *)
Theorem findLongestMatchingPath_no_fallback w a c path :
  vipers w !! a = Some c →
  IsSet c path = true →
  Sub c path = None →
  findLongestMatchingPath path (Some a) w = (Ok None, w).
Proof.
  intros Hc Hset Hsub.
  pose proof (Split_nonempty path ".") as Hne.
  rewrite (findLongestMatchingPath_hit w a c path (length (Split path ".")) Hc).
  - rewrite path_prefix_full, (viper_Sub_run _ _ _ _ Hc). by rewrite Hsub.
  - destruct (Split path "."); [done|]. simpl. lia.
  - by rewrite path_prefix_full.
  - intros m' Hm'. lia.
Qed.

Lemma resolve_loop_outcome w cp c parts pl (js : list nat) :
  vipers w !! cp = Some c →
  ∃ r w',
    for_return js (λ i,
        let mod_ := pl - i in
        let k := Join (take mod_ parts) "." in
        isset ← viper_IsSet (Some cp) k;
        if isset then s ← viper_Sub (Some cp) k; ret (Some s) else ret None) w
    = (Ok r, w')
    ∧ ((default None r = None ∧ w' = w)
       ∨ ∃ j s, j ∈ js
                ∧ IsSet c (Join (take (pl - j) parts) ".") = true
                ∧ Sub c (Join (take (pl - j) parts) ".") = Some s
                ∧ r = Some (Some (length (vipers w)))
                ∧ w' = (new_viper s w).2).
Proof.
  intros Hc. induction js as [|j js IH]; simpl.
  - exists None, w. split; [done|]. by left.
  - destruct (IsSet c (Join (take (pl - j) parts) ".")) eqn:Hset.
    + run_with ltac:(by apply viper_IsSet_run). rewrite Hset.
      rewrite bind_assoc_run. unfold viper_Sub.
      run_with ltac:(by apply deref_Some).
      destruct (Sub c _) as [s|] eqn:Hsub.
      * eexists _, _. split; [reflexivity|]. right.
        exists j, s. split; [apply list_elem_of_here|]. by split_and!.
      * exists (Some None), w. split; [done|]. by left.
    + destruct IH as (r & w' & Hrun & Hcase). exists r, w'. split.
      * run_with ltac:(by apply viper_IsSet_run). by rewrite Hset, bind_ret_run.
      * destruct Hcase as [?|(j' & s & Hj' & ?)]; [by left|].
        right. exists j', s. split; [by apply list_elem_of_further|done].
Qed.

(** X9: on a view, [findLongestMatchingPath] always returns, and it either
    returns nil and leaves the state as it was, or returns a pointer to one
    new view, [Sub] of a set prefix of the key: it never returns the view it
    was given and never changes a view, logger or registry at hand. *)
Theorem findLongestMatchingPath_nil_or_new_view w cp c path :
  vipers w !! cp = Some c →
  ∃ p w',
    findLongestMatchingPath path (Some cp) w = (Ok p, w')
    ∧ ((p = None ∧ w' = w)
       ∨ ∃ (m : nat) s,
           (1 ≤ m ≤ length (Split path "."))%nat
           ∧ IsSet c (path_prefix path m) = true
           ∧ Sub c (path_prefix path m) = Some s
           ∧ p = Some (length (vipers w))
           ∧ p ≠ Some cp
           ∧ w' = mkWorld (RootName w) (vipers w ++ [s])%list (fieldmaps w) (loggers w)
                    (registries w) (configured w)).
Proof.
  intros Hc. unfold findLongestMatchingPath.
  destruct (resolve_loop_outcome w cp c (Split path ".") (length (Split path "."))
              (seq 0 (length (Split path "."))) Hc) as (r & w' & Hrun & Hcase).
  exists (default None r), w'. split; [by rewrite (bind_Ok _ _ _ _ _ Hrun)|].
  destruct Hcase as [?|(j & s & Hj & Hset & Hsub & -> & ->)]; [by left|].
  right. apply elem_of_seq in Hj.
  exists (length (Split path ".") - j)%nat, s. unfold path_prefix.
  split_and!; try done; try lia.
  apply lookup_lt_Some in Hc. intros [=]. lia.
Qed.
End ResolutionMore.

Lemma findLongestMatchingPath_no_fallback_witness :
  IsSet cfg_leaf "a" = true
  ∧ is_Some (Sub cfg_leaf "a")
  ∧ findLongestMatchingPath "a.level" (Some 0) w_leaf = (Ok None, w_leaf).
Proof.
  assert (Hc : vipers w_leaf !! 0 = Some cfg_leaf) by reflexivity.
  assert (Hset : IsSet cfg_leaf "a.level" = true) by reflexivity.
  assert (Hsub : Sub cfg_leaf "a.level" = None) by reflexivity.
  split; [reflexivity|]. split; [by eexists|].
  exact (findLongestMatchingPath_no_fallback w_leaf 0 cfg_leaf "a.level" Hc Hset Hsub).
Defined.

Lemma findLongestMatchingPath_nil_or_new_view_witness :
  ∃ p w', findLongestMatchingPath "a.b.c.d" (Some 0) w_sections = (Ok p, w').
Proof.
  assert (Hc : vipers w_sections !! 0 = Some cfg_sections) by reflexivity.
  destruct (findLongestMatchingPath_nil_or_new_view w_sections 0 cfg_sections "a.b.c.d" Hc)
    as (p & w' & H1 & _).
  exists p, w'. exact H1.
Defined.

(** ** Construction, further *)

Section ConstructionMore.
Context {V : Type} `{!ConfigView V, !LoggerImpl V}.
Implicit Types w : World V.

Lemma bind_panics {A B} (m : M V A) (f : A → M V B) w :
  (m w).1 = Panic → (bind m f w).1 = Panic.
Proof. unfold bind. by destruct (m w) as [[a|] w1]. Qed.

(** X10: [NewRegistry] needs a logging view: with a nil configuration, or
    with [logging] in the configuration but [Sub("logging")] nil (the entry
    is no section), it panics, and the state is as before. *)
Theorem NewRegistry_panics_without_logging_view w cfg context :
  logging_view w cfg = None →
  NewRegistry cfg context w = (Panic, w).
Proof.
  unfold logging_view, NewRegistry. intros Hv.
  destruct cfg as [ca|]; [|done].
  unfold viper_InConfig at 1. rewrite bind_assoc_run.
  unfold bind at 1, deref at 1.
  destruct (vipers w !! ca) as [c0|] eqn:Hc0; [|done].
  rewrite bind_ret_run.
  destruct (InConfig c0 "logging"); [|done].
  run_with ltac:(erewrite viper_Sub_run by exact Hc0; rewrite Hv; reflexivity).
  done.
Qed.

(** The state in which the loop over the keys starts. *)
Lemma modules_built_start w context ctx (cv : V) cp vs :
  vs !! cp = Some cv →
  context_fields w context = Some ctx →
  modules_built (length (fieldmaps w)) (length (loggers w)) context ctx cv cp
    (length (registries w)) []
    (mkWorld (RootName w) vs (fieldmaps w) (loggers w)
       (registries w ++ [mkRegistry (Some cp) ∅])%list (configured w)).
Proof.
  intros Hcp Hctx. unfold modules_built; simpl. split_and!; try done.
  - exists 0%nat. done.
  - lia.
  - exists ∅. split; [apply lookup_snoc|]. split; [by rewrite dom_empty_L|].
    intros k' l Hl. by rewrite lookup_empty in Hl.
  - intros la lg Hla Hl. apply lookup_lt_Some in Hl. lia.
Qed.

(** With keys, [NewRegistry] is the loop over them, run on the state that
    holds the logging view and the empty registry. *)
Lemma NewRegistry_keys_loop w cfg context cv :
  logging_view w cfg = Some cv →
  AllKeys cv ≠ [] →
  ∃ cp vs,
    vs !! cp = Some cv
    ∧ vipers w `prefix_of` vs
    ∧ NewRegistry cfg context w
      = (for_range (AllKeys cv)
           (NewRegistry_module (Some cp) (Some (length (registries w))) context);;
         ret (Some (length (registries w))))
          (mkWorld (RootName w) vs (fieldmaps w) (loggers w)
             (registries w ++ [mkRegistry (Some cp) ∅])%list (configured w)).
Proof.
  intros Hv Hk. unfold NewRegistry.
  lazymatch goal with
  | |- context [bind (viper_InConfig cfg "logging")
                  (λ inlog, bind (@?C inlog)
                     (λ c, bind (viper_AllKeys c)
                        (λ keys, bind (new_registry (mkRegistry c ∅))
                           (λ reg, @?K c keys reg))))] =>
      destruct (NewRegistry_prelude K w cfg cv Hv) as (cp & vs & Hcp & Hpre & Heq)
  end.
  simpl in Heq. exists cp, vs. split; [done|]. split; [done|].
  setoid_rewrite Heq.
  assert (Hlen : (length (AllKeys cv) =? 0)%nat = false) by by destruct (AllKeys cv).
  rewrite Hlen. unfold bind.
  by destruct (for_range _ _ _) as [[[]|] w1].
Qed.

Lemma modules_loop_panics F0 L0 context ctx cv cp ra k keys : ∀ done w,
  modules_built F0 L0 context ctx cv cp ra done w →
  k ∈ keys →
  (∀ n, (n ≤ length done + length keys)%nat → module_view (filled n cv) k = None) →
  (for_range keys (NewRegistry_module (Some cp) (Some ra) context) w).1 = Panic.
Proof.
  induction keys as [|k0 keys IH]; intros done w Hinv Hk Hnone; simpl.
  - by apply elem_of_nil in Hk.
  - pose proof Hinv as ((n & Hn & Hc) & Hctx & _ & _ & _ & (st & Hr & _) & _).
    destruct (module_view (filled n cv) k0) as [v'|] eqn:Hv.
    + pose proof (NewRegistry_module_run w cp _ ra _ context ctx k0 v' Hc Hr Hctx Hv) as Hrun.
      rewrite (bind_Ok _ _ _ _ _ Hrun).
      apply elem_of_cons in Hk as [->|Hk].
      { rewrite Hnone in Hv; [done|]. simpl. lia. }
      apply (IH (done ++ [k0])%list); [by eapply modules_built_step|done|].
      intros n' Hn'. apply Hnone. rewrite length_app in Hn'. simpl in *. lia.
    + apply bind_panics.
      by apply (NewRegistry_module_panics w cp _ ra context ctx k0 Hc Hctx).
Qed.

(** X11: [NewRegistry] panics when a key of the logging view has no view
    to bind its logger to, that is when the view has the key [InConfig] but
    [Sub] gives nil for it (the key holds a scalar), however many rounds of
    default filling the logging view has been through. *)
Theorem NewRegistry_panics_without_module_view w cfg context cv ctx k :
  logging_view w cfg = Some cv →
  context_fields w context = Some ctx →
  k ∈ AllKeys cv →
  (∀ n, (n ≤ length (AllKeys cv))%nat →
        InConfig (filled n cv) k = true ∧ Sub (filled n cv) k = None) →
  (NewRegistry cfg context w).1 = Panic.
Proof.
  intros Hv Hctx Hk Hnone.
  assert (Hne : AllKeys cv ≠ []) by (intros E; rewrite E in Hk; by apply elem_of_nil in Hk).
  destruct (NewRegistry_keys_loop w cfg context cv Hv Hne) as (cp & vs & Hcp & _ & ->).
  apply bind_panics.
  eapply (modules_loop_panics _ _ _ _ _ _ _ k (AllKeys cv) []);
    [by apply modules_built_start|done|].
  intros n Hn. destruct (Hnone n Hn) as [Hin Hsub].
  unfold module_view. by rewrite Hin, Hsub.
Qed.

(** X12: every logger [NewRegistry] stores is a new logger named by its
    key, without parent, and with its [reg] field pointing back to the
    registry returned; the store is never empty. *)
Theorem NewRegistry_loggers_named_and_owned w cfg context cv ctx :
  logging_view w cfg = Some cv →
  context_fields w context = Some ctx →
  views_exist cv = true →
  ∃ ra w' reg,
    NewRegistry cfg context w = (Ok (Some ra), w')
    ∧ registries w' !! ra = Some reg
    ∧ store reg ≠ ∅
    ∧ ∀ k l, store reg !! k = Some l →
        ∃ la lg, l = Some la ∧ (length (loggers w) ≤ la)%nat
                 ∧ loggers w' !! la = Some lg
                 ∧ l_name lg = k ∧ l_parent lg = None ∧ l_reg lg = Some ra.
Proof.
  intros Hv Hctx Hviews.
  destruct (decide (AllKeys cv = [])) as [Hk|Hk].
  - destruct (NewRegistry_no_keys w cfg context cv ctx Hv Hk Hctx) as (cp & vs & Hcp & Hrun).
    eexists _, _, _. split; [exact Hrun|]. simpl. split; [apply lookup_snoc|]. simpl.
    split; [apply insert_non_empty|].
    intros k l [<- <-]%lookup_singleton_Some.
    eexists _, _. split; [done|]. split; [done|]. split; [apply lookup_snoc|done].
  - destruct (NewRegistry_with_keys w cfg context cv ctx Hv Hk Hctx Hviews)
      as (cp & w' & Hrun & _ & _ & _ & _ & _ & (st & Hr & Hdom & Hst) & Hlg).
    exists (length (registries w)), w', (mkRegistry (Some cp) st).
    split; [exact Hrun|]. split; [exact Hr|]. simpl. split.
    + intros ->. rewrite dom_empty_L in Hdom. destruct (AllKeys cv) as [|k0 ks]; [done|].
      assert (k0 ∈ (∅ : gset string)) as Hin; [|by apply not_elem_of_empty in Hin].
      rewrite Hdom. apply elem_of_list_to_set, list_elem_of_here.
    + intros k l Hl. destruct (Hst _ _ Hl) as (la & lg & -> & Hla & Hlk & Hnm).
      destruct (Hlg _ _ Hla Hlk) as (_ & Hp & Hg & _).
      by exists la, lg.
Qed.
End ConstructionMore.

Lemma NewRegistry_panics_without_logging_view_witness :
  NewRegistry (Some 0) None w_scalar_logging = (Panic, w_scalar_logging).
Proof.
  assert (Hl : logging_view w_scalar_logging (Some 0) = None) by reflexivity.
  exact (NewRegistry_panics_without_logging_view w_scalar_logging (Some 0) None Hl).
Defined.

Lemma NewRegistry_panics_without_module_view_witness :
  (NewRegistry (Some 0) None w_scalar_key).1 = Panic.
Proof.
  assert (Hl : logging_view w_scalar_key (Some 0) = Some cv_scalar_key) by reflexivity.
  assert (Hc : context_fields w_scalar_key None = Some ∅) by reflexivity.
  assert (Hk : "level" ∈ AllKeys cv_scalar_key) by apply list_elem_of_here.
  apply (NewRegistry_panics_without_module_view w_scalar_key (Some 0) None
           cv_scalar_key ∅ "level" Hl Hc Hk).
  intros n Hn. destruct n as [|[|n]]; [by split|by split|simpl in Hn; lia].
Defined.

Lemma NewRegistry_loggers_named_and_owned_witness :
  ∃ ra w' reg,
    NewRegistry (Some 0) (Some 0) w_modules = (Ok (Some ra), w')
    ∧ registries w' !! ra = Some reg
    ∧ store reg ≠ ∅.
Proof.
  assert (Hl : logging_view w_modules (Some 0) = Some cv_modules) by reflexivity.
  assert (Hc : context_fields w_modules (Some 0) = Some {["app" := IString "x"]})
    by reflexivity.
  assert (Hv : views_exist cv_modules = true) by (vm_compute; reflexivity).
  destruct (NewRegistry_loggers_named_and_owned w_modules (Some 0) (Some 0) cv_modules
              {["app" := IString "x"]} Hl Hc Hv)
    as (ra & w' & reg & H1 & H2 & H3 & _).
  exists ra, w', reg. split; [exact H1|split; [exact H2|exact H3]].
Defined.

(** ** The views the loggers are bound to *)

Section Views.
Context {V : Type} `{!ConfigView V, !LoggerImpl V}.
Implicit Types w : World V.

Lemma shared_fills_app (cv : V) (l1 l2 : list string) : ∀ n,
  shared_fills cv n (l1 ++ l2) = shared_fills cv (shared_fills cv n l1) l2.
Proof. induction l1 as [|k l1 IH]; intros n; simpl; [done|]. apply IH. Qed.

Lemma views_bound_step F0 L0 V0 context ctx cv cp ra done k w w' :
  modules_built F0 L0 context ctx cv cp ra done w →
  views_bound V0 L0 cv cp ra done w →
  NewRegistry_module (Some cp) (Some ra) context k w = (Ok tt, w') →
  views_bound V0 L0 cv cp ra (done ++ [k]) w'.
Proof.
  intros (_ & Hctx & _) (Hcp & HV & Hlen & Hc & Hlog & st & Hr & Hst) Hrun.
  set (n := shared_fills cv 0 done) in *.
  destruct (module_view (filled n cv) k) as [v'|] eqn:Hv.
  2:{ pose proof (NewRegistry_module_panics w cp _ ra context ctx k Hc Hctx Hv) as Hp.
      by rewrite Hrun in Hp. }
  rewrite (NewRegistry_module_run w cp _ ra _ context ctx k v' Hc Hr Hctx Hv) in Hrun.
  injection Hrun as <-.
  assert (Hra : (ra < length (registries w))%nat) by by eapply lookup_lt_Some.
  assert (Hfills : shared_fills cv 0 (done ++ [k])
                   = if InConfig (filled n cv) k then n else S n).
  { by rewrite shared_fills_app. }
  assert (Hmono : ∀ n0 k0 lg, bound_view V0 cv cp n0 k0 lg w →
            bound_view V0 cv cp n0 k0 lg
              (mkWorld (RootName w)
                 (if InConfig (filled n cv) k then (vipers w ++ [v'])%list
                  else <[cp := v']> (vipers w))
                 (fieldmaps w ++ [<["module" := IString (module_name v' k)]> ctx])%list
                 (loggers w ++
                    [mkLogger k (Some (length (fieldmaps w)))
                       (if InConfig (filled n cv) k then Some (length (vipers w))
                        else Some cp) None (Some ra)])%list
                 (<[ra := mkRegistry (config (mkRegistry (Some cp) st))
                            (<[k := Some (length (loggers w))]>
                               (store (mkRegistry (Some cp) st)))]> (registries w))
                 (configured w))).
  { intros n0 k0 lg [?|(Hin & va & s & Hcfg & Hva & Hsub & Hlook)]; [by left|].
    right. split; [done|]. exists va, s. split_and!; try done. simpl.
    destruct (InConfig (filled n cv) k).
    - by apply lookup_app_l_Some.
    - rewrite list_lookup_insert_ne; [done|lia]. }
  unfold views_bound. split; [done|]. split.
  { simpl. destruct (InConfig (filled n cv) k).
    - rewrite length_app. lia.
    - by rewrite length_insert. }
  split; [simpl; rewrite !length_app; simpl; lia|]. split.
  { simpl. rewrite Hfills. unfold module_view in Hv.
    destruct (InConfig (filled n cv) k).
    - by apply lookup_app_l_Some.
    - injection Hv as <-. apply list_lookup_insert_eq. by eapply lookup_lt_Some. }
  split.
  - intros i k0 Hi.
    destruct (decide (i < length done)%nat) as [Hlt|Hge].
    + rewrite lookup_app_l in Hi by done.
      destruct (Hlog i k0 Hi) as (lg & Hlg & Hnm & Hb).
      exists lg. split; [simpl; by apply lookup_app_l_Some|]. split; [done|].
      rewrite take_app_le by lia. by apply Hmono.
    + assert (i = length done) as ->.
      { apply lookup_lt_Some in Hi. rewrite length_app in Hi. simpl in Hi. lia. }
      rewrite lookup_snoc in Hi. injection Hi as <-.
      eexists. split; [simpl; rewrite <- Hlen; apply lookup_snoc|]. split; [done|].
      rewrite take_app_length. fold n. unfold module_view in Hv. unfold bound_view. simpl.
      destruct (InConfig (filled n cv) k) eqn:Hin.
      * right. split; [done|].
        destruct (Sub (filled n cv) k) as [s|] eqn:Hsub; [|done].
        injection Hv as <-.
        exists (length (vipers w)), s. split_and!; try done. apply lookup_snoc.
      * by left.
  - eexists. split; [simpl; by apply list_lookup_insert_eq|]. simpl.
    intros k0 l Hl. destruct (decide (k = k0)) as [->|Hne].
    + rewrite lookup_insert_eq in Hl. injection Hl as <-.
      exists (length done). split; [by rewrite Hlen|]. split; [apply lookup_snoc|].
      intros j Hj. rewrite lookup_ge_None_2; [done|]. rewrite length_app. simpl. lia.
    + rewrite lookup_insert_ne in Hl by done.
      destruct (Hst _ _ Hl) as (i & -> & Hi & Hlast).
      exists i. split; [done|]. split; [by apply lookup_app_l_Some|].
      intros j Hj.
      destruct (decide (j < length done)%nat) as [Hlt|Hge].
      * rewrite lookup_app_l by done. by apply Hlast.
      * destruct (decide (j = length done)) as [->|Hne'].
        -- rewrite lookup_snoc. congruence.
        -- rewrite lookup_ge_None_2; [done|]. rewrite length_app. simpl. lia.
Qed.

Lemma views_bound_loop F0 L0 V0 context ctx cv cp ra keys : ∀ done w w',
  modules_built F0 L0 context ctx cv cp ra done w →
  views_bound V0 L0 cv cp ra done w →
  for_range keys (NewRegistry_module (Some cp) (Some ra) context) w = (Ok tt, w') →
  views_bound V0 L0 cv cp ra (done ++ keys) w'.
Proof.
  induction keys as [|k keys IH]; intros done w w' Hinv Hb Hrun; simpl in Hrun.
  - injection Hrun as <-. by rewrite app_nil_r.
  - apply bind_inv in Hrun as ([] & w1 & Hk & Hrest).
    rewrite (assoc_L (++) done [k] keys : (done ++ k :: keys = (done ++ [k]) ++ keys)%list).
    eapply IH; [by eapply modules_built_step| |done].
    by eapply views_bound_step.
Qed.

(** X13: which view each logger made by [NewRegistry] is bound to.  The
    loop takes the keys in the order [AllKeys] gives them.  At the turn of a
    key that the logging view, as it is by then, has [InConfig], the logger
    gets a view of its own, allocated by this call and holding [Sub] of the
    key with the defaults filled in.
    At the turn of any other key the logger gets the registry's own view
    pointer, and the defaults are written into that shared view: so after
    the call the shared view has been filled exactly once for each such key,
    and the logger stored under a key is the one of the key's last turn. *)
Theorem NewRegistry_logger_views w cfg context cv ctx :
  logging_view w cfg = Some cv →
  context_fields w context = Some ctx →
  AllKeys cv ≠ [] →
  views_exist cv = true →
  ∃ ra cp w' reg,
    NewRegistry cfg context w = (Ok (Some ra), w')
    ∧ registries w' !! ra = Some reg
    ∧ config reg = Some cp
    ∧ vipers w' !! cp = Some (filled (shared_fills cv 0 (AllKeys cv)) cv)
    ∧ ∀ k l, store reg !! k = Some l →
        ∃ la lg i,
          l = Some la ∧ loggers w' !! la = Some lg
          ∧ AllKeys cv !! i = Some k
          ∧ (∀ j, (i < j)%nat → AllKeys cv !! j ≠ Some k)
          ∧ ((InConfig (filled (shared_fills cv 0 (take i (AllKeys cv))) cv) k = false
              ∧ l_config lg = Some cp)
             ∨ (InConfig (filled (shared_fills cv 0 (take i (AllKeys cv))) cv) k = true
                ∧ ∃ va s,
                    l_config lg = Some va ∧ va ≠ cp
                    ∧ (length (vipers w) ≤ va)%nat
                    ∧ Sub (filled (shared_fills cv 0 (take i (AllKeys cv))) cv) k = Some s
                    ∧ vipers w' !! va = Some (addLoggingDefaults s))).
Proof.
  intros Hv Hctx Hne Hviews.
  destruct (NewRegistry_keys_loop w cfg context cv Hv Hne) as (cp & vs & Hcp & Hpre & Heq).
  pose proof (modules_built_start w context ctx cv cp vs Hcp Hctx) as Hstart.
  destruct (modules_loop_returns _ _ _ _ _ _ _ (AllKeys cv) [] _ Hstart) as [w1 Hloop].
  { intros n k Hn Hin. by apply views_exist_spec. }
  assert (Hb : views_bound (length vs) (length (loggers w)) cv cp
                 (length (registries w)) (AllKeys cv) w1).
  { eapply (views_bound_loop _ _ _ _ _ _ _ _ (AllKeys cv) []); [exact Hstart| |exact Hloop].
    unfold views_bound; simpl. split; [by eapply lookup_lt_Some|]. split; [done|].
    split; [lia|]. split; [done|]. split; [intros i k Hi; by rewrite lookup_nil in Hi|].
    exists ∅. split; [apply lookup_snoc|]. intros k l Hl. by rewrite lookup_empty in Hl. }
  destruct Hb as (Hlt & _ & _ & Hc & Hlog & st & Hr & Hst).
  exists (length (registries w)), cp, w1, (mkRegistry (Some cp) st).
  split; [by rewrite Heq, (bind_Ok _ _ _ _ _ Hloop)|].
  split; [done|]. split; [done|]. split; [done|].
  intros k l Hl. destruct (Hst _ _ Hl) as (i & -> & Hi & Hlast).
  destruct (Hlog i k Hi) as (lg & Hlg & _ & Hbv).
  exists (length (loggers w) + i)%nat, lg, i. split_and!; try done.
  destruct Hbv as [?|(Hin & va & s & ? & Hva & ? & ?)]; [by left|].
  right. split; [done|]. exists va, s. apply prefix_length in Hpre.
  split_and!; try done; lia.
Qed.
End Views.

Lemma NewRegistry_logger_views_witness :
  ∃ ra cp w' reg,
    NewRegistry (Some 0) None w_dotted = (Ok (Some ra), w')
    ∧ registries w' !! ra = Some reg
    ∧ config reg = Some cp
    ∧ vipers w' !! cp = Some (filled 1 cv_dotted).
Proof.
  assert (Hl : logging_view w_dotted (Some 0) = Some cv_dotted) by reflexivity.
  assert (Hc : context_fields w_dotted None = Some ∅) by reflexivity.
  assert (Hne : AllKeys cv_dotted ≠ []) by discriminate.
  assert (Hv : views_exist cv_dotted = true) by (vm_compute; reflexivity).
  assert (Hn : shared_fills cv_dotted 0 (AllKeys cv_dotted) = 1)
    by (vm_compute; reflexivity).
  destruct (NewRegistry_logger_views w_dotted (Some 0) None cv_dotted ∅ Hl Hc Hne Hv)
    as (ra & cp & w' & reg & H1 & H2 & H3 & H4 & _).
  rewrite Hn in H4.
  exists ra, cp, w', reg. split; [exact H1|split; [exact H2|split; [exact H3|exact H4]]].
Defined.

(** ** Reload, further *)

Section ReloadMore.
Context {V : Type} `{!ConfigView V, !LoggerImpl V}.
Implicit Types w : World V.

Lemma Reload_keys_length (reg : LoggerRegistry) :
  length (sort_Strings (map_to_list (store reg)).*1) = size (store reg).
Proof.
  unfold sort_Strings. rewrite merge_sort_Permutation, length_fmap.
  apply length_map_to_list.
Qed.

(** X14: on a registry that has a view and a logger under every key,
    [Reload] returns after calling [Configure] exactly once per key, on the
    key's logger and in the ascending order of the keys, matched or not: a
    key none of whose prefixes is set has its logger configured with a nil
    view.  Nothing else is recorded, and no registry changes. *)
Theorem Reload_one_Configure_per_key w a reg cp c :
  registries w !! a = Some reg →
  config reg = Some cp →
  vipers w !! cp = Some c →
  (∀ k l, store reg !! k = Some l → ∃ la, l = Some la ∧ (la < length (loggers w))%nat) →
  ∃ w' calls,
    Reload (Some a) w = (Ok tt, w')
    ∧ registries w' = registries w
    ∧ configured w' = (configured w ++ calls)%list
    ∧ length calls = size (store reg)
    ∧ Forall2 (λ k call, store reg !! k = Some (Some call.1))
              (sort_Strings (map_to_list (store reg)).*1) calls
    ∧ (∀ k la, store reg !! k = Some (Some la) →
         (∀ m : nat, (1 ≤ m ≤ length (Split k "."))%nat →
                     IsSet c (path_prefix k m) = false) →
         (la, None) ∈ calls).
Proof.
  intros Hr Hcfg Hc Hlg.
  destruct (Reload_configures_every_key w a reg cp c Hr Hcfg Hc Hlg)
    as (w' & calls & Hrun & Hcalls & Hf2 & Hnil).
  exists w', calls. split_and!; try done.
  - pose proof (Reload_keeps registries (Some a) (λ s w, eq_refl) (λ a o w, eq_refl)
                  (λ a c w, eq_refl) w) as H. by rewrite Hrun in H.
  - by rewrite <- (Forall2_length _ _ _ Hf2), Reload_keys_length.
Qed.

(** A logger under every key of the loop, or a panic. *)
Lemma Reload_apply_panics a reg (configs : gmap string ptr) k keys : ∀ w,
  registries w !! a = Some reg →
  (∀ k', k' ∈ keys → is_Some (configs !! k')) →
  k ∈ keys →
  store reg !! k = Some None →
  (for_range keys (λ k,
       reg ← deref registries (Some a);
       let logger := default None (store reg !! k) in
       match configs !! k with
       | Some cfg => Logger_Configure logger cfg
       | None => ret tt
       end) w).1 = Panic.
Proof.
  induction keys as [|k0 keys IH]; intros w Hr Hcf Hk Hnil; simpl.
  - by apply elem_of_nil in Hk.
  - destruct (Hcf k0) as [cfg Hk0]; [apply list_elem_of_here|].
    rewrite bind_assoc_run. run_with ltac:(by apply deref_Some).
    rewrite Hk0. simpl.
    destruct (default None (store reg !! k0)) as [la|] eqn:Hlog; [|done].
    destruct (loggers w !! la) as [o|] eqn:Ho.
    + rewrite (bind_Ok _ _ _ _ _ (Logger_Configure_run w la o cfg Ho)).
      apply elem_of_cons in Hk as [->|Hk]; [by rewrite Hnil in Hlog|].
      apply IH; try done.
      intros k' Hk'. apply Hcf. by apply list_elem_of_further.
    + unfold Logger_Configure, bind, deref. by rewrite Ho.
Qed.

(** X15: [Register] takes a nil logger without complaint, and the next
    [Reload] panics: it calls [Configure] through the nil interface (unless
    it panics before, on a key earlier in the order).  The store is as
    [Register] left it. *)
Theorem Reload_panics_after_Register_nil w a reg cp c path :
  registries w !! a = Some reg →
  config reg = Some cp →
  vipers w !! cp = Some c →
  ∃ w1,
    Register (Some a) path None w = (Ok tt, w1)
    ∧ (Reload (Some a) w1).1 = Panic
    ∧ registries (Reload (Some a) w1).2 = registries w1.
Proof.
  intros Hr Hcfg Hc.
  assert (Ha : (a < length (registries w))%nat) by by eapply lookup_lt_Some.
  rewrite (Register_run _ _ _ path None Hr). eexists. split; [reflexivity|].
  set (reg1 := mkRegistry (config reg) (<[ToLower path := None]> (store reg))).
  set (w1 := mkWorld _ _ _ _ _ _).
  assert (Hr1 : registries w1 !! a = Some reg1) by (by apply list_lookup_insert_eq).
  split.
  2:{ by apply (Reload_keeps registries). }
  unfold Reload. run_with ltac:(by apply deref_Some).
  set (keys := sort_Strings (map_to_list (store reg1)).*1).
  assert (Hin : ToLower path ∈ keys).
  { unfold keys, sort_Strings. rewrite merge_sort_Permutation, list_elem_of_fmap.
    exists (ToLower path, None). split; [done|].
    apply elem_of_map_to_list. simpl. apply lookup_insert_eq. }
  destruct (Reload_resolve_run a reg1 cp c keys ∅ w1 Hr1 Hcfg Hc)
    as (configs & w2 & Hres & Hall & _).
  rewrite (bind_Ok _ _ _ _ _ Hres).
  apply (Reload_apply_panics a reg1 configs (ToLower path)); try done.
  - pose proof (Reload_resolve_keeps registries a keys ∅ (λ s w, eq_refl) w1) as H.
    rewrite Hres in H. simpl in H. by rewrite H.
  - simpl. apply lookup_insert_eq.
Qed.

(** The keys [Reload] walks over are the keys of the store, each once. *)
Lemma Reload_keys_NoDup (reg : LoggerRegistry) :
  NoDup (sort_Strings (map_to_list (store reg)).*1).
Proof.
  unfold sort_Strings. rewrite merge_sort_Permutation. apply NoDup_fst_map_to_list.
Qed.

(** X16: [Reload] right after a [NewRegistry] that returned (every key the
    view has [InConfig] has a section) returns too.  The new store is not
    empty and every key of it has a logger in the heap; [Reload] walks over
    the keys in ascending order, each key once, and records one call of
    [Configure] for each, on the logger stored under that key, and nothing
    else; it changes no registry. *)
Theorem Reload_after_NewRegistry_returns w cfg context cv ctx :
  logging_view w cfg = Some cv →
  context_fields w context = Some ctx →
  views_exist cv = true →
  ∃ ra w' reg w'' calls,
    NewRegistry cfg context w = (Ok (Some ra), w')
    ∧ registries w' !! ra = Some reg
    ∧ (1 ≤ size (store reg))%nat
    ∧ (∀ k l, store reg !! k = Some l →
         ∃ la lg, l = Some la ∧ loggers w' !! la = Some lg)
    ∧ Reload (Some ra) w' = (Ok tt, w'')
    ∧ registries w'' = registries w'
    ∧ configured w'' = (configured w' ++ calls)%list
    ∧ length calls = size (store reg)
    ∧ NoDup (sort_Strings (map_to_list (store reg)).*1)
    ∧ Forall2 (λ k call, store reg !! k = Some (Some call.1))
              (sort_Strings (map_to_list (store reg)).*1) calls.
Proof.
  intros Hv Hctx Hviews.
  assert (Hrun : ∃ ra w' cp st c,
            NewRegistry cfg context w = (Ok (Some ra), w')
            ∧ registries w' !! ra = Some (mkRegistry (Some cp) st)
            ∧ vipers w' !! cp = Some c
            ∧ st ≠ ∅
            ∧ ∀ k l, st !! k = Some l →
                ∃ la, l = Some la ∧ (la < length (loggers w'))%nat).
  { destruct (decide (AllKeys cv = [])) as [Hk|Hk].
    - destruct (NewRegistry_no_keys w cfg context cv ctx Hv Hk Hctx)
        as (cp & vs & Hcp & Hrun).
      eexists _, _, cp, _, cv. split; [exact Hrun|]. simpl.
      split; [apply lookup_snoc|]. split; [done|]. split; [apply insert_non_empty|].
      intros k l [<- <-]%lookup_singleton_Some. eexists. split; [done|].
      rewrite length_app. simpl. lia.
    - destruct (NewRegistry_with_keys w cfg context cv ctx Hv Hk Hctx Hviews)
        as (cp & w' & Hrun & (n & _ & Hc) & _ & _ & _ & _ & (st & Hr & Hdom & Hst) & _).
      exists (length (registries w)), w', cp, st, (filled n cv).
      split; [exact Hrun|]. split; [exact Hr|]. split; [exact Hc|]. split.
      + intros ->. rewrite dom_empty_L in Hdom. destruct (AllKeys cv) as [|k0 ks]; [done|].
        assert (k0 ∈ (∅ : gset string)) as Hin; [|by apply not_elem_of_empty in Hin].
        rewrite Hdom. apply elem_of_list_to_set, list_elem_of_here.
      + intros k l Hl. destruct (Hst _ _ Hl) as (la & lg & -> & _ & Hlk & _).
        exists la. split; [done|]. by eapply lookup_lt_Some. }
  destruct Hrun as (ra & w' & cp & st & c & Hnew & Hr & Hc & Hne & Hlg).
  destruct (Reload_configures_every_key w' ra _ cp c Hr eq_refl Hc Hlg)
    as (w'' & calls & Hrel & Hcalls & Hf2 & _).
  exists ra, w', (mkRegistry (Some cp) st), w'', calls.
  split_and!; try done.
  - simpl. apply map_size_non_empty_iff in Hne. lia.
  - intros k l Hl. destruct (Hlg k l Hl) as (la & -> & Hlt).
    destruct (lookup_lt_is_Some_2 _ _ Hlt) as [lg Hlook]. by exists la, lg.
  - pose proof (Reload_keeps registries (Some ra) (λ s w, eq_refl) (λ a o w, eq_refl)
                  (λ a c w, eq_refl) w') as H. by rewrite Hrel in H.
  - by rewrite <- (Forall2_length _ _ _ Hf2), Reload_keys_length.
  - apply Reload_keys_NoDup.
Qed.
End ReloadMore.

Lemma Reload_one_Configure_per_key_witness :
  ∃ w' calls,
    Reload (Some 0) w_loggers = (Ok tt, w')
    ∧ configured w' = calls
    ∧ length calls = 2
    ∧ (1, None) ∈ calls.
Proof.
  assert (Hr : registries w_loggers !! 0
               = Some (mkRegistry (Some 0) {["a.b" := Some 0; "x" := Some 1]}))
    by reflexivity.
  assert (Hc : vipers w_loggers !! 0 = Some cfg_sections) by reflexivity.
  assert (Hlg : ∀ k l,
            store (mkRegistry (Some 0) {["a.b" := Some 0; "x" := Some 1]}) !! k = Some l →
            ∃ la, l = Some la ∧ (la < length (loggers w_loggers))%nat).
  { intros k l Hl. simpl in Hl.
    apply lookup_insert_Some in Hl as [[_ <-]|[_ Hl]].
    - exists 0. split; [reflexivity|simpl; lia].
    - apply lookup_singleton_Some in Hl as [_ <-].
      exists 1. split; [reflexivity|simpl; lia]. }
  destruct (Reload_one_Configure_per_key w_loggers 0 _ 0 cfg_sections Hr eq_refl Hc Hlg)
    as (w' & calls & H1 & _ & H2 & H3 & _ & H4).
  exists w', calls. split; [exact H1|]. split; [exact H2|]. split; [exact H3|].
  apply (H4 "x" 1); [reflexivity|].
  intros m Hm. simpl in Hm. assert (m = 1) as -> by lia. reflexivity.
Defined.

Lemma Reload_panics_after_Register_nil_witness :
  ∃ w1,
    Register (Some 0) "Y" None w_loggers = (Ok tt, w1)
    ∧ (Reload (Some 0) w1).1 = Panic.
Proof.
  assert (Hr : registries w_loggers !! 0
               = Some (mkRegistry (Some 0) {["a.b" := Some 0; "x" := Some 1]}))
    by reflexivity.
  assert (Hc : vipers w_loggers !! 0 = Some cfg_sections) by reflexivity.
  destruct (Reload_panics_after_Register_nil w_loggers 0 _ 0 cfg_sections "Y"
              Hr eq_refl Hc)
    as (w1 & H1 & H2 & _).
  exists w1. split; [exact H1|exact H2].
Defined.

Lemma Reload_after_NewRegistry_returns_witness :
  ∃ ra w' w'' calls,
    NewRegistry (Some 0) (Some 0) w_modules = (Ok (Some ra), w')
    ∧ Reload (Some ra) w' = (Ok tt, w'')
    ∧ registries w'' = registries w'
    ∧ configured w'' = (configured w' ++ calls)%list.
Proof.
  assert (Hl : logging_view w_modules (Some 0) = Some cv_modules) by reflexivity.
  assert (Hc : context_fields w_modules (Some 0) = Some {["app" := IString "x"]})
    by reflexivity.
  assert (Hv : views_exist cv_modules = true) by (vm_compute; reflexivity).
  destruct (Reload_after_NewRegistry_returns w_modules (Some 0) (Some 0) cv_modules
              {["app" := IString "x"]} Hl Hc Hv)
    as (ra & w' & reg & w'' & calls & H1 & _ & _ & _ & H2 & H3 & H4 & _).
  exists ra, w', w'', calls.
  split; [exact H1|split; [exact H2|split; [exact H3|exact H4]]].
Defined.

(** ** Sequences of calls *)

Section Calls.
Context {V : Type} `{!ConfigView V, !LoggerImpl V}.
Implicit Types w : World V.

(** The lookups leave the state as it is. *)
Lemma lookups_keep_state (r : ptr) name w :
  (GetOK r name w).2 = w ∧ (Get r name w).2 = w ∧ (Root r w).2 = w.
Proof.
  assert (HG : ∀ n, (GetOK r n w).2 = w).
  { intros n. unfold GetOK, bind, deref. destruct r as [a|]; [|done].
    by destruct (registries w !! a). }
  assert (Hg : ∀ n, (Get r n w).2 = w).
  { intros n. unfold Get, bind. specialize (HG n).
    destruct (GetOK r n w) as [[[l ok]|] w1]; simpl in *; [|done].
    by destruct ok. }
  split; [apply HG|]. split; [apply Hg|]. unfold Root, bind, get_RootName. apply Hg.
Qed.

(** What one call does to the registry it is made on. *)
Lemma run_call_registry a reg c w :
  registries w !! a = Some reg →
  ∃ reg',
    registries (run_call (Some a) c w).2 !! a = Some reg'
    ∧ config reg' = config reg
    ∧ dom (store reg) ⊆ dom (store reg')
    ∧ (call_ascii c = true → lowercase_store reg → lowercase_store reg')
    ∧ (∀ k, k ∈ dom (store reg') →
         k ∈ dom (store reg) ∨ ∃ path l, c = CallRegister path l ∧ k = ToLower path).
Proof.
  intros Hr.
  assert (Hsame : ∀ w1, registries w1 = registries w →
            ∃ reg', registries w1 !! a = Some reg'
              ∧ config reg' = config reg
              ∧ dom (store reg) ⊆ dom (store reg')
              ∧ (call_ascii c = true → lowercase_store reg → lowercase_store reg')
              ∧ (∀ k, k ∈ dom (store reg') →
                   k ∈ dom (store reg) ∨ ∃ path l, c = CallRegister path l ∧ k = ToLower path)).
  { intros w1 ->. exists reg. split_and!; try done. intros k ?. by left. }
  destruct c as [name|name|path l| |]; simpl.
  - apply Hsame. unfold bind. pose proof (lookups_keep_state (Some a) name w) as (_ & Hg & _).
    destruct (Get (Some a) name w) as [[?|] w1]; simpl in *; by subst.
  - apply Hsame. unfold bind. pose proof (lookups_keep_state (Some a) name w) as (Hg & _).
    destruct (GetOK (Some a) name w) as [[?|] w1]; simpl in *; by subst.
  - rewrite (Register_run _ _ _ path l Hr). simpl.
    eexists. split; [apply list_lookup_insert_eq; by eapply lookup_lt_Some|]. simpl.
    split; [done|]. split; [|split].
    + rewrite dom_insert_L. apply union_subseteq_r.
    + intros Hasc Hlow k. simpl. destruct (decide (ToLower path = k)) as [<-|Hne].
      * intros _. split; [by apply isASCII_ToLower|apply ToLower_idem].
      * rewrite lookup_insert_ne by done. apply Hlow.
    + intros k. rewrite dom_insert_L, elem_of_union, elem_of_singleton.
      intros [->|Hk]; [right; by exists path, l|by left].
  - apply Hsame. unfold bind. pose proof (lookups_keep_state (Some a) "" w) as (_ & _ & Hg).
    destruct (Root (Some a) w) as [[?|] w1]; simpl in *; by subst.
  - apply Hsame. by apply (Reload_keeps registries).
Qed.

(** X17: a store built lowercase stays lowercase.  Names are ASCII here:
    the keys of the logging view, [RootName] and the paths given to
    [Register].  When the keys of the logging view are lowercase (viper lists
    them so) and [RootName] is lowercase, every key of the store is ASCII
    and lowercase after [NewRegistry] and after any calls of [Get], [GetOK],
    [Register], [Root] and [Reload] that follow it, also when one of them
    panics. *)
Theorem store_stays_lowercase w cfg context cv ctx (cs : list call) :
  logging_view w cfg = Some cv →
  context_fields w context = Some ctx →
  views_exist cv = true →
  (∀ k, k ∈ AllKeys cv → isASCII k = true ∧ ToLower k = k) →
  isASCII (RootName w) = true →
  ToLower (RootName w) = RootName w →
  forallb call_ascii cs = true →
  ∃ ra w' reg,
    NewRegistry cfg context w = (Ok (Some ra), w')
    ∧ registries (run_calls (Some ra) cs w').2 !! ra = Some reg
    ∧ lowercase_store reg.
Proof.
  intros Hv Hctx Hviews Hkeys Hasc Hroot Hcs.
  destruct (NewRegistry_lowercase w cfg context cv ctx Hv Hctx Hviews Hkeys Hasc Hroot)
    as (ra & w' & reg & Hrun & Hr & Hlow).
  exists ra, w'.
  assert (Hloop : ∀ cs' w1, forallb call_ascii cs' = true →
            (∃ reg', registries w1 !! ra = Some reg' ∧ lowercase_store reg') →
            ∃ reg', registries (run_calls (Some ra) cs' w1).2 !! ra = Some reg'
                    ∧ lowercase_store reg').
  { unfold run_calls. induction cs' as [|c cs' IH]; intros w1 Hall Hinv; simpl; [done|].
    simpl in Hall. apply andb_prop in Hall as [Hc Hall].
    destruct Hinv as (reg1 & Hr1 & Hlow1).
    destruct (run_call_registry ra reg1 c w1 Hr1) as (reg2 & Hr2 & _ & _ & Hl2 & _).
    unfold bind. destruct (run_call (Some ra) c w1) as [[[]|] w2]; simpl in *.
    - apply IH; [done|]. exists reg2. split; [done|by apply Hl2].
    - exists reg2. split; [done|by apply Hl2]. }
  destruct (Hloop cs w' Hcs) as (reg' & Hr' & Hlow'); [by exists reg|].
  by exists reg'.
Qed.

(** X18: no call removes a store entry or changes the registry's view
    pointer: after any calls of [Get], [GetOK], [Register] with ASCII paths,
    [Root] and [Reload], finished or ended by a panic, every name stored
    before is stored still, and a name stored now and not before is the
    lowercase form of a path given to [Register]. *)
Theorem calls_never_remove_entries w a reg (cs : list call) :
  registries w !! a = Some reg →
  forallb call_ascii cs = true →
  ∃ reg',
    registries (run_calls (Some a) cs w).2 !! a = Some reg'
    ∧ config reg' = config reg
    ∧ dom (store reg) ⊆ dom (store reg')
    ∧ ∀ k, k ∈ dom (store reg') →
        k ∈ dom (store reg)
        ∨ ∃ path l, CallRegister path l ∈ cs ∧ isASCII path = true ∧ k = ToLower path.
Proof.
  revert w reg. unfold run_calls.
  induction cs as [|c cs IH]; intros w reg Hr Hall; simpl.
  - exists reg. split_and!; try done. intros k ?. by left.
  - simpl in Hall. apply andb_prop in Hall as [Hc Hall].
    destruct (run_call_registry a reg c w Hr) as (reg1 & Hr1 & Hc1 & Hd1 & _ & Hnew1).
    unfold bind. destruct (run_call (Some a) c w) as [[[]|] w1] eqn:Hrun; simpl in *.
    + destruct (IH w1 reg1 Hr1 Hall) as (reg' & Hr' & Hc' & Hd' & Hnew').
      exists reg'. split; [done|]. split; [congruence|]. split; [set_solver|].
      intros k Hk. destruct (Hnew' k Hk) as [Hk1|(path & l & Hin & Hp & ->)].
      * destruct (Hnew1 k Hk1) as [?|(path & l & -> & ->)]; [by left|].
        right. exists path, l. split; [apply list_elem_of_here|done].
      * right. exists path, l. split; [by apply list_elem_of_further|done].
    + exists reg1. split; [done|]. split; [done|]. split; [done|].
      intros k Hk. destruct (Hnew1 k Hk) as [?|(path & l & -> & ->)]; [by left|].
      right. exists path, l. split; [apply list_elem_of_here|done].
Qed.
End Calls.

Lemma store_stays_lowercase_witness :
  ∃ ra w' reg,
    NewRegistry (Some 0) (Some 0) w_modules = (Ok (Some ra), w')
    ∧ registries (run_calls (Some ra)
                    [CallRegister "Srv.HTTP" None; CallReload; CallGet "A"] w').2 !! ra
      = Some reg
    ∧ lowercase_store reg.
Proof.
  assert (Hl : logging_view w_modules (Some 0) = Some cv_modules) by reflexivity.
  assert (Hc : context_fields w_modules (Some 0) = Some {["app" := IString "x"]})
    by reflexivity.
  assert (Hv : views_exist cv_modules = true) by (vm_compute; reflexivity).
  assert (Hk : ∀ k, k ∈ AllKeys cv_modules → isASCII k = true ∧ ToLower k = k).
  { intros k Hin.
    change (AllKeys cv_modules) with ["a.level"; "a.b.name"; "c.level"] in Hin.
    apply elem_of_cons in Hin as [->|Hin]; [split; reflexivity|].
    apply elem_of_cons in Hin as [->|Hin]; [split; reflexivity|].
    apply elem_of_cons in Hin as [->|Hin]; [split; reflexivity|].
    by apply elem_of_nil in Hin. }
  assert (Ha : isASCII (RootName w_modules) = true) by reflexivity.
  assert (Hr : ToLower (RootName w_modules) = RootName w_modules) by reflexivity.
  assert (Hcs : forallb call_ascii
                  [CallRegister "Srv.HTTP" None; CallReload; CallGet "A"] = true)
    by reflexivity.
  exact (store_stays_lowercase w_modules (Some 0) (Some 0) cv_modules
           {["app" := IString "x"]}
           [CallRegister "Srv.HTTP" None; CallReload; CallGet "A"]
           Hl Hc Hv Hk Ha Hr Hcs).
Defined.

Lemma calls_never_remove_entries_witness :
  ∃ reg',
    registries (run_calls (Some 0) [CallRegister "Y" None; CallReload; CallRoot]
                  w_loggers).2 !! 0 = Some reg'
    ∧ dom (store (mkRegistry (Some 0) {["a.b" := Some 0; "x" := Some 1]}))
      ⊆ dom (store reg').
Proof.
  assert (Hr : registries w_loggers !! 0
               = Some (mkRegistry (Some 0) {["a.b" := Some 0; "x" := Some 1]}))
    by reflexivity.
  assert (Hcs : forallb call_ascii [CallRegister "Y" None; CallReload; CallRoot] = true)
    by reflexivity.
  destruct (calls_never_remove_entries w_loggers 0 _
              [CallRegister "Y" None; CallReload; CallRoot] Hr Hcs)
    as (reg' & H1 & _ & H2 & _).
  exists reg'. split; [exact H1|exact H2].
Defined.

(** ** What construction leaves alone, and lookup after it *)

Section ConstructionFrame.
Context {V : Type} `{!ConfigView V, !LoggerImpl V}.
Implicit Types w : World V.

Lemma extends_loop F0 L0 context ctx cv cp ra keys : ∀ done w w',
  modules_built F0 L0 context ctx cv cp ra done w →
  for_range keys (NewRegistry_module (Some cp) (Some ra) context) w = (Ok tt, w') →
  extends ra w w'.
Proof.
  induction keys as [|k keys IH]; intros done w w' Hinv Hrun; simpl in Hrun.
  - injection Hrun as <-. by split_and!.
  - apply bind_inv in Hrun as ([] & w1 & Hk & Hrest).
    pose proof (modules_built_step _ _ _ _ _ _ _ _ _ _ _ Hinv Hk) as Hinv1.
    destruct (IH _ _ _ Hinv1 Hrest) as (Hrn & Hlg & Hfm & Htake & Hlen).
    destruct Hinv as ((n & Hn & Hc) & Hctx & _ & _ & _ & (st & Hr & _) & _).
    destruct (module_view (filled n cv) k) as [v'|] eqn:Hv.
    2:{ pose proof (NewRegistry_module_panics w cp _ ra context ctx k Hc Hctx Hv) as Hp.
        by rewrite Hk in Hp. }
    rewrite (NewRegistry_module_run w cp _ ra _ context ctx k v' Hc Hr Hctx Hv) in Hk.
    injection Hk as <-. simpl in *.
    split_and!.
    + done.
    + etrans; [|exact Hlg]. by apply prefix_app_r.
    + etrans; [|exact Hfm]. by apply prefix_app_r.
    + rewrite Htake. by apply take_insert_ge.
    + by rewrite Hlen, length_insert.
Qed.

(** X19: [NewRegistry] leaves what is there alone: it returns the address
    of one new registry, and every registry, logger and field map that
    existed before is where it was and as it was; [RootName] is not
    changed. *)
Theorem NewRegistry_leaves_existing_objects w cfg context cv ctx :
  logging_view w cfg = Some cv →
  context_fields w context = Some ctx →
  views_exist cv = true →
  ∃ w',
    NewRegistry cfg context w = (Ok (Some (length (registries w))), w')
    ∧ length (registries w') = S (length (registries w))
    ∧ registries w `prefix_of` registries w'
    ∧ loggers w `prefix_of` loggers w'
    ∧ fieldmaps w `prefix_of` fieldmaps w'
    ∧ RootName w' = RootName w.
Proof.
  intros Hv Hctx Hviews.
  destruct (decide (AllKeys cv = [])) as [Hk|Hk].
  - destruct (NewRegistry_no_keys w cfg context cv ctx Hv Hk Hctx) as (cp & vs & Hcp & Hrun).
    eexists. split; [exact Hrun|]. simpl.
    split_and!; try done; try by apply prefix_app_r.
    rewrite length_app. simpl. lia.
  - destruct (NewRegistry_keys_loop w cfg context cv Hv Hk) as (cp & vs & Hcp & _ & Heq).
    pose proof (modules_built_start w context ctx cv cp vs Hcp Hctx) as Hstart.
    destruct (modules_loop_returns _ _ _ _ _ _ _ (AllKeys cv) [] _ Hstart) as [w1 Hloop].
    { intros n k Hn Hin. by apply views_exist_spec. }
    destruct (extends_loop _ _ _ _ _ _ _ _ _ _ _ Hstart Hloop)
      as (Hrn & Hlg & Hfm & Htake & Hlen).
    simpl in *. rewrite take_app_length in Htake.
    rewrite length_app in Hlen. simpl in Hlen.
    exists w1. split; [by rewrite Heq, (bind_Ok _ _ _ _ _ Hloop)|].
    split_and!; try done; [lia|].
    exists (drop (length (registries w)) (registries w1)).
    rewrite <- (take_drop (length (registries w)) (registries w1)) at 1.
    by rewrite Htake.
Qed.

(** X20: after [NewRegistry] on a logging view with keys, a lookup finds
    the logger of a key under every ASCII name whose lowercase form is the
    key, and that logger is named by the key; an ASCII name whose lowercase
    form is no key is not found. *)
Theorem GetOK_after_NewRegistry w cfg context cv ctx :
  logging_view w cfg = Some cv →
  context_fields w context = Some ctx →
  AllKeys cv ≠ [] →
  views_exist cv = true →
  ∃ ra w',
    NewRegistry cfg context w = (Ok (Some ra), w')
    ∧ (∀ name, isASCII name = true → ToLower name ∈ AllKeys cv →
         ∃ la lg, GetOK (Some ra) name w' = (Ok (Some la, true), w')
                  ∧ Get (Some ra) name w' = (Ok (Some la), w')
                  ∧ loggers w' !! la = Some lg
                  ∧ l_name lg = ToLower name)
    ∧ (∀ name, isASCII name = true → ToLower name ∉ AllKeys cv →
         GetOK (Some ra) name w' = (Ok (None, false), w')
         ∧ Get (Some ra) name w' = (Ok None, w')).
Proof.
  intros Hv Hctx Hne Hviews.
  destruct (NewRegistry_with_keys w cfg context cv ctx Hv Hne Hctx Hviews)
    as (cp & w' & Hrun & _ & _ & _ & _ & _ & (st & Hr & Hdom & Hst) & _).
  exists (length (registries w)), w'. split; [exact Hrun|]. split.
  - intros name _ Hin.
    assert (Hd : ToLower name ∈ dom st) by (rewrite Hdom; by apply elem_of_list_to_set).
    apply elem_of_dom in Hd as [l Hl].
    destruct (Hst _ _ Hl) as (la & lg & -> & _ & Hlk & Hnm).
    exists la, lg.
    rewrite (GetOK_run _ _ _ _ Hr), (Get_run _ _ _ _ Hr). simpl. by rewrite Hl.
  - intros name _ Hnin.
    assert (Hnone : st !! ToLower name = None).
    { apply not_elem_of_dom. rewrite Hdom. by rewrite elem_of_list_to_set. }
    rewrite (GetOK_run _ _ _ _ Hr), (Get_run _ _ _ _ Hr). simpl. by rewrite Hnone.
Qed.
End ConstructionFrame.

Lemma NewRegistry_leaves_existing_objects_witness :
  ∃ w',
    NewRegistry (Some 0) None w_loggers = (Ok (Some 1), w')
    ∧ registries w_loggers `prefix_of` registries w'
    ∧ loggers w_loggers `prefix_of` loggers w'.
Proof.
  assert (Hl : logging_view w_loggers (Some 0) = Some cfg_sections) by reflexivity.
  assert (Hc : context_fields w_loggers None = Some ∅) by reflexivity.
  assert (Hv : views_exist cfg_sections = true) by (vm_compute; reflexivity).
  destruct (NewRegistry_leaves_existing_objects w_loggers (Some 0) None cfg_sections ∅
              Hl Hc Hv)
    as (w' & H1 & _ & H2 & H3 & _).
  exists w'. split; [exact H1|split; [exact H2|exact H3]].
Defined.

Lemma GetOK_after_NewRegistry_witness :
  ∃ ra w' la,
    NewRegistry (Some 0) (Some 0) w_modules = (Ok (Some ra), w')
    ∧ GetOK (Some ra) "A.Level" w' = (Ok (Some la, true), w')
    ∧ GetOK (Some ra) "a" w' = (Ok (None, false), w').
Proof.
  assert (Hl : logging_view w_modules (Some 0) = Some cv_modules) by reflexivity.
  assert (Hc : context_fields w_modules (Some 0) = Some {["app" := IString "x"]})
    by reflexivity.
  assert (Hne : AllKeys cv_modules ≠ []) by discriminate.
  assert (Hv : views_exist cv_modules = true) by (vm_compute; reflexivity).
  destruct (GetOK_after_NewRegistry w_modules (Some 0) (Some 0) cv_modules
              {["app" := IString "x"]} Hl Hc Hne Hv)
    as (ra & w' & H1 & H2 & H3).
  assert (Hin : ToLower "A.Level" ∈ AllKeys cv_modules).
  { apply (bool_decide_unpack _). vm_compute. exact I. }
  assert (Hnin : ToLower "a" ∉ AllKeys cv_modules).
  { apply (bool_decide_unpack _). vm_compute. exact I. }
  destruct (H2 "A.Level" eq_refl Hin) as (la & lg & H4 & _).
  exists ra, w', la. split; [exact H1|]. split; [exact H4|].
  exact (proj1 (H3 "a" eq_refl Hnin)).
Defined.

(** ** The view a logger is reloaded with *)

Section ReloadViews.
Context {V : Type} `{!ConfigView V, !LoggerImpl V}.
Implicit Types w : World V.

(** The entry the first loop of [Reload] leaves for a key with a set
    prefix: nil or a new view, as [Sub] has it for the longest set prefix. *)
Lemma Reload_resolve_views a reg cp c keys : ∀ (configs : gmap string ptr) w,
  registries w !! a = Some reg → config reg = Some cp → vipers w !! cp = Some c →
  ∃ configs' w',
    for_fold keys configs (λ configs key,
        reg ← deref registries (Some a);
        cfg ← findLongestMatchingPath key (config reg);
        ret (<[key := cfg]> configs)) w
    = (Ok configs', w')
    ∧ vipers w `prefix_of` vipers w'
    ∧ (∀ k, k ∉ keys → configs' !! k = configs !! k)
    ∧ (∀ k (m : nat), k ∈ keys →
         (1 ≤ m ≤ length (Split k "."))%nat →
         IsSet c (path_prefix k m) = true →
         (∀ m' : nat, (m < m' ≤ length (Split k "."))%nat →
                      IsSet c (path_prefix k m') = false) →
         ∃ p, configs' !! k = Some p
              ∧ match Sub c (path_prefix k m) with
                | Some s => ∃ va, p = Some va ∧ vipers w' !! va = Some s
                | None => p = None
                end).
Proof.
  induction keys as [|key keys IH]; intros configs w Hr Hcfg Hc; simpl.
  - exists configs, w. split; [done|]. split; [done|]. split; [done|].
    by intros ? ? ?%elem_of_nil.
  - destruct (findLongestMatchingPath_returns w cp c key Hc) as (p & w1 & Hrun & Hpre).
    assert (Hreg1 : registries w1 = registries w).
    { pose proof (findLongestMatchingPath_keeps registries key (Some cp)
                    (λ s w, eq_refl) w) as H. by rewrite Hrun in H. }
    destruct (IH (<[key := p]> configs) w1)
      as (configs' & w' & Hfold & Hpre' & Hpres & Hhit).
    { by rewrite Hreg1. } { done. } { by eapply prefix_lookup_Some. }
    exists configs', w'. split.
    { rewrite bind_assoc_run. run_with ltac:(by apply deref_Some).
      rewrite Hcfg, bind_assoc_run. rewrite (bind_Ok _ _ _ _ _ Hrun).
      by rewrite bind_ret_run. }
    split; [by etrans|]. split.
    + intros k Hk. apply not_elem_of_cons in Hk as [Hne Hk].
      rewrite (Hpres _ Hk). by apply lookup_insert_ne.
    + intros k m Hk Hm Hset Hlonger.
      destruct (decide (k ∈ keys)) as [Hin|Hnin]; [by apply Hhit|].
      apply elem_of_cons in Hk as [->|Hk]; [|done].
      exists p. split; [by rewrite (Hpres _ Hnin), lookup_insert_eq|].
      rewrite (findLongestMatchingPath_hit w cp c key m Hc Hm Hset Hlonger) in Hrun.
      rewrite (viper_Sub_run _ _ _ _ Hc) in Hrun.
      destruct (Sub c (path_prefix key m)) as [s|].
      * injection Hrun as <- <-. eexists. split; [done|].
        eapply prefix_lookup_Some; [|exact Hpre']. simpl. apply lookup_snoc.
      * by injection Hrun as <- <-.
Qed.

Lemma Reload_apply_keeps_vipers a (configs : gmap string ptr) keys :
  keeps vipers (for_range keys (λ k,
      reg ← deref registries (Some a);
      let logger := default None (store reg !! k) in
      match configs !! k with
      | Some cfg => Logger_Configure logger cfg
      | None => ret tt
      end)).
Proof. unfold Logger_Configure. repeat keeps_step. Qed.

(** X21: [Reload] configures the logger of a key with the view of the
    longest set prefix of the key: on a registry that has a view and a
    logger under every key, the [Configure] call for a key whose longest set
    prefix is [p] passes a pointer to a view equal to [Sub(p)], or nil when
    [Sub(p)] is nil. *)
Theorem Reload_configures_with_longest_prefix w a reg cp c k la (m : nat) :
  registries w !! a = Some reg →
  config reg = Some cp →
  vipers w !! cp = Some c →
  (∀ k l, store reg !! k = Some l → ∃ la, l = Some la ∧ (la < length (loggers w))%nat) →
  store reg !! k = Some (Some la) →
  (1 ≤ m ≤ length (Split k "."))%nat →
  IsSet c (path_prefix k m) = true →
  (∀ m' : nat, (m < m' ≤ length (Split k "."))%nat →
               IsSet c (path_prefix k m') = false) →
  ∃ w' calls p,
    Reload (Some a) w = (Ok tt, w')
    ∧ configured w' = (configured w ++ calls)%list
    ∧ (la, p) ∈ calls
    ∧ match Sub c (path_prefix k m) with
      | Some s => ∃ va, p = Some va ∧ vipers w' !! va = Some s
      | None => p = None
      end.
Proof.
  intros Hr Hcfg Hc Hlg Hk Hm Hset Hlonger. unfold Reload.
  run_with ltac:(by apply deref_Some).
  set (keys := sort_Strings (map_to_list (store reg)).*1).
  assert (Hkeys : ∀ k, k ∈ keys ↔ is_Some (store reg !! k)).
  { intros k0. unfold keys, sort_Strings. rewrite merge_sort_Permutation.
    rewrite list_elem_of_fmap. split.
    - intros ([k' l] & -> & Hin). apply elem_of_map_to_list in Hin. by eexists.
    - intros [l Hl]. exists (k0, l). split; [done|]. by apply elem_of_map_to_list. }
  destruct (Reload_resolve_views a reg cp c keys ∅ w Hr Hcfg Hc)
    as (configs & w1 & Hres & Hpre & _ & Hhit).
  destruct (Reload_resolve_run a reg cp c keys ∅ w Hr Hcfg Hc)
    as (configs0 & w0 & Hres0 & Hall & _).
  rewrite Hres in Hres0. injection Hres0 as <- <-.
  assert (Hframe : registries w1 = registries w ∧ loggers w1 = loggers w
                   ∧ configured w1 = configured w).
  { split_and!.
    - pose proof (Reload_resolve_keeps registries a keys ∅ (λ s w, eq_refl) w) as H.
      by rewrite Hres in H.
    - pose proof (Reload_resolve_keeps loggers a keys ∅ (λ s w, eq_refl) w) as H.
      by rewrite Hres in H.
    - pose proof (Reload_resolve_keeps configured a keys ∅ (λ s w, eq_refl) w) as H.
      by rewrite Hres in H. }
  destruct Hframe as (Hreg1 & Hlog1 & Hcon1).
  destruct (Reload_apply_run a reg configs keys w1) as (w' & calls & Happ & Hcalls & Hf2).
  { by rewrite Hreg1. } { done. }
  { intros k0 Hk0. apply Hkeys in Hk0 as [l Hl].
    destruct (Hlg _ _ Hl) as (la0 & -> & Hlt). exists la0. by rewrite Hlog1. }
  assert (Hv' : vipers w' = vipers w1).
  { pose proof (Reload_apply_keeps_vipers a configs keys w1) as H. by rewrite Happ in H. }
  assert (Hin : k ∈ keys) by (apply Hkeys; by eexists).
  destruct (Hhit k m Hin Hm Hset Hlonger) as (p & Hp & Hview).
  exists w', calls, p. split; [by rewrite (bind_Ok _ _ _ _ _ Hres)|].
  split; [by rewrite Hcalls, Hcon1|]. split.
  - apply list_elem_of_lookup in Hin as [i Hi].
    destruct (Forall2_lookup_l _ _ _ _ _ Hf2 Hi) as ([la' p'] & Hci & Hs & Hp').
    simpl in *. simplify_eq. by eapply list_elem_of_lookup_2.
  - rewrite Hv'. exact Hview.
Qed.
End ReloadViews.

Lemma Reload_configures_with_longest_prefix_witness :
  ∃ w' (calls : list (nat * ptr)) va,
    Reload (Some 0) w_loggers = (Ok tt, w')
    ∧ configured w' = calls
    ∧ (0, Some va) ∈ calls
    ∧ vipers w' !! va = Some [("level", CStr "info")].
Proof.
  assert (Hr : registries w_loggers !! 0
               = Some (mkRegistry (Some 0) {["a.b" := Some 0; "x" := Some 1]}))
    by reflexivity.
  assert (Hc : vipers w_loggers !! 0 = Some cfg_sections) by reflexivity.
  assert (Hlg : ∀ k l,
            store (mkRegistry (Some 0) {["a.b" := Some 0; "x" := Some 1]}) !! k = Some l →
            ∃ la, l = Some la ∧ (la < length (loggers w_loggers))%nat).
  { intros k l Hl. simpl in Hl.
    apply lookup_insert_Some in Hl as [[_ <-]|[_ Hl]].
    - exists 0. split; [reflexivity|simpl; lia].
    - apply lookup_singleton_Some in Hl as [_ <-].
      exists 1. split; [reflexivity|simpl; lia]. }
  assert (Hk : store (mkRegistry (Some 0) {["a.b" := Some 0; "x" := Some 1]}) !! "a.b"
               = Some (Some 0)) by reflexivity.
  assert (Hm : (1 ≤ 1 ≤ length (Split "a.b" "."))%nat) by (simpl; lia).
  assert (Hset : IsSet cfg_sections (path_prefix "a.b" 1) = true) by reflexivity.
  assert (Hlonger : ∀ m' : nat, (1 < m' ≤ length (Split "a.b" "."))%nat →
                      IsSet cfg_sections (path_prefix "a.b" m') = false).
  { intros m' Hm'. simpl in Hm'. assert (m' = 2) as -> by lia. reflexivity. }
  destruct (Reload_configures_with_longest_prefix w_loggers 0 _ 0 cfg_sections "a.b" 0 1
              Hr eq_refl Hc Hlg Hk Hm Hset Hlonger)
    as (w' & calls & p & H1 & H0 & H2 & H3).
  change (Sub cfg_sections (path_prefix "a.b" 1))
    with (Some [("level", CStr "info")] : option TreeView) in H3.
  destruct H3 as (va & -> & H3).
  exists w', calls, va.
  split; [exact H1|split; [exact H0|split; [exact H2|exact H3]]].
Defined.
